(** * WebVideoCreator: a shallow embedding of the capture context, the
    page driver's time actions, the media preprocessor payload and the
    chunk synthesizer (src/index.cjs), with the properties of its spec. *)

From Stdlib Require Import ZArith QArith Qround Lqa Floats Bool Init.Byte DecimalN.
From stdpp Require Import base list gmap strings pretty.

Local Open Scope Z_scope.

(** ** JavaScript numbers

    A JavaScript number is an IEEE-754 double, modelled by the kernel's
    primitive [float]. The predicates below read the exact value of a double
    through [Prim2SF]. *)
Module JsNumber.

(** [Number.isFinite] / lodash's [_.isFinite] on a number. *)
Definition isFinite (x : float) : bool :=
  match Prim2SF x with
  | S754_zero _ | S754_finite _ _ _ => true
  | _ => false
  end.

(** The global [isNaN] on a number. *)
Definition isNaN (x : float) : bool :=
  match Prim2SF x with S754_nan => true | _ => false end.

(** The comparison [x <= y] on two numbers (false when one is NaN). *)
Definition le (x y : float) : bool := SFleb (Prim2SF x) (Prim2SF y).

(** The exact value of a finite double as a rational; the non-finite
    values are sent to 0 and never used as such. *)
Definition toQ (x : float) : Q :=
  match Prim2SF x with
  | S754_finite s m e =>
      let v := if s then Z.neg m else Z.pos m in
      if 0 <=? e then inject_Z (v * 2 ^ e) else Qmake v (Z.to_pos (2 ^ (- e)))
  | _ => 0%Q
  end.

(** [x > 0] on a number: a positive finite double or [+Infinity]. *)
Definition is_positive (x : float) : bool :=
  match Prim2SF x with
  | S754_finite false _ _ | S754_infinity false => true
  | _ => false
  end.

(** A number that is either known to be an integer (the result of
    [Math.floor] on a finite double) or an arbitrary double. *)
Inductive num := Int (z : Z) | Dbl (f : float).

(** [Math.floor]: on a finite double its integer value; on an infinite
    or NaN double (and on a signed zero) the double itself. *)
Definition Math_floor (x : float) : num :=
  match Prim2SF x with
  | S754_finite s m e =>
      let v := if s then Z.neg m else Z.pos m in
      Int (if 0 <=? e then v * 2 ^ e else v / 2 ^ (- e))
  | S754_zero _ => Int 0
  | _ => Dbl x
  end.

End JsNumber.

(** A JavaScript call either returns or throws (a failed [assert] or an
    explicit [throw new Error(...)]). *)
Inductive result (A : Type) := Ok (a : A) | Throw (msg : string).
Arguments Ok {A} a.
Arguments Throw {A} msg.

Module Util.
Import JsNumber.

(** [util.durationToFrameCount(duration, fps)]:
    [Math.floor(duration / 1000 * fps)] after two finiteness asserts. *)
Definition durationToFrameCount (duration fps : float) : result num :=
  if negb (isFinite duration) then Throw "duration must be number"
  else if negb (isFinite fps) then Throw "fps must be number"
  else Ok (Math_floor ((duration / 1000) * fps)%float).

(** [util.frameCountToDuration(frameCount, fps)]: [frameCount / fps]. *)
Definition frameCountToDuration (frameCount fps : float) : result float :=
  if negb (isFinite frameCount) then Throw "duration must be number"
  else if negb (isFinite fps) then Throw "fps must be number"
  else Ok (frameCount / fps)%float.

End Util.

(** ** The capture context (class [CaptureContext], page side) *)
Module Capture.
Import JsNumber.

(** [isNaN] and [x <= 0] on a configured number. *)
Definition num_isNaN (n : num) : bool :=
  match n with Int _ => false | Dbl f => isNaN f end.
Definition num_le0 (n : num) : bool :=
  match n with Int z => z <=? 0 | Dbl f => le f 0%float end.

Definition num_is_positive (n : num) : bool :=
  match n with Int z => 0 <? z | Dbl f => is_positive f end.

(** [captureCtx.config] once [startScreencast] has injected it. *)
Record config := mkConfig {
  fps : float;
  startTime : float;
  duration : float;
  frameCount : num
}.

(** [CaptureContext._checkConfig]. *)
Definition checkConfig (c : config) : result unit :=
  if isNaN (fps c) || le (fps c) 0%float then Throw "config fps is invalid"
  else if isNaN (duration c) || le (duration c) 0%float then Throw "config duration is invalid"
  else if num_isNaN (frameCount c) || num_le0 (frameCount c) then Throw "config frameCount is invalid"
  else Ok tt.

(** The mutable fields of the context read by the capture loop.
    [currentTime] is a double, advanced by double additions of the frame
    interval. [ticks] and [captures] count the ticks run and the
    [captureFrame] calls made, to index the environment's answers. *)
Record ctx := mkCtx {
  currentTime : float;
  frameIndex : Z;
  stopFlag : bool;
  ticks : nat;
  captures : nat
}.

Definition init_ctx : ctx := mkCtx 0%float 0 false 0 0.

(** What the page outside the loop answers: whether the awaited media
    seeks, CSS-animation seeks and time actions of tick [n] resolve (a
    rejection is caught at the root of the tick, logged, and no next tick is
    scheduled), and the boolean returned by the [k]-th [captureFrame]. *)
Record env := mkEnv {
  tickResolves : nat -> bool;
  captureResult : nat -> bool
}.

(** The host functions the loop calls. *)
Inductive event := CaptureFrame | SkipFrame | ScreencastCompleted.

(** [this.frameInterval = 1000 / this.config.fps], a double division. *)
Definition frameInterval (c : config) : float := (1000 / fps c)%float.

(** [x || 0] on a number: a falsy number ([0], [-0] or [NaN]) gives 0. *)
Definition or_zero (x : float) : float :=
  match Prim2SF x with S754_zero _ | S754_nan => 0%float | _ => x end.

(** [isCapturing()]: [currentTime >= (config.startTime || 0)]. *)
Definition isCapturing (c : config) (x : ctx) : bool :=
  le (or_zero (startTime c)) (currentTime x).

(** [++this.frameIndex >= this.config.frameCount]. *)
Definition reached (fi : Z) (n : num) : bool :=
  match n with
  | Int z => z <=? fi
  | Dbl f =>
      match Prim2SF f with
      | S754_infinity true => true
      | S754_infinity false | S754_nan => false
      | _ => Qle_bool (toQ f) (inject_Z fi)
      end
  end.

(** The self-rescheduling [nextFrame] of [CaptureContext.start], one tick
    per unit of fuel, returning the host calls it makes. *)
Fixpoint nextFrame (fuel : nat) (c : config) (e : env) (x : ctx) : list event :=
  match fuel with
  | O => []
  | S fuel' =>
      if stopFlag x then [ScreencastCompleted]
      else if negb (tickResolves e (ticks x)) then []
      else
        let x1 := mkCtx (currentTime x + frameInterval c)%float (frameIndex x)
                        (stopFlag x) (S (ticks x)) (captures x) in
        if isCapturing c x1 then
          CaptureFrame ::
            (if negb (captureResult e (captures x1)) then []
             else
               let fi := frameIndex x1 + 1 in
               let x2 := mkCtx (currentTime x1) fi (stopFlag x1) (ticks x1)
                               (S (captures x1)) in
               if reached fi (frameCount c) then [ScreencastCompleted]
               else if stopFlag x2 then [ScreencastCompleted]
               else nextFrame fuel' c e x2)
        else SkipFrame :: nextFrame fuel' c e x1
  end.

(** [start()] once the page is ready: check the configuration, then run
    the loop from a fresh context. *)
Definition start (fuel : nat) (c : config) (e : env) : result (list event) :=
  match checkConfig c with
  | Throw m => Throw m
  | Ok _ => Ok (nextFrame fuel c e init_ctx)
  end.

End Capture.

(** ** The page driver (class [Page], host side) *)
Module Page.
Import JsNumber.

(** The options of [startScreencast]; [None] is an option left undefined. *)
Record screencast_options := mkOptions {
  opt_fps : option float;
  opt_startTime : option float;
  opt_duration : option float;
  opt_frameCount : option float
}.

(** The configuration object passed to [Object.assign(captureCtx.config, ...)]
    ([_.pickBy] drops the undefined fields). *)
Record injected := mkInjected {
  inj_fps : option float;
  inj_startTime : float;
  inj_duration : option float;
  inj_frameCount : option num
}.

Definition undefined_or_finite (o : option float) : bool :=
  match o with None => true | Some x => isFinite x end.

(** [util.durationToFrameCount(duration, fps)] with [fps] possibly
    undefined ([_.isFinite(undefined)] is false). *)
Definition durationToFrameCount' (d : float) (fps : option float) : result num :=
  match fps with
  | Some f => Util.durationToFrameCount d f
  | None => if isFinite d then Throw "fps must be number" else Throw "duration must be number"
  end.

Definition frameCountToDuration' (fc : float) (fps : option float) : result float :=
  match fps with
  | Some f => Util.frameCountToDuration fc f
  | None => if isFinite fc then Throw "fps must be number" else Throw "duration must be number"
  end.

(** The option checks and the derivation of [frameCount] or [duration]
    done by [Page.startScreencast] before it injects the configuration. *)
Definition startScreencast (o : screencast_options) : result injected :=
  let startTime := default 0%float (opt_startTime o) in
  if negb (undefined_or_finite (opt_fps o)) then Throw "fps must be number"
  else if negb (isFinite startTime) then Throw "startTime must be number"
  else if negb (undefined_or_finite (opt_duration o)) then Throw "duration must be number"
  else if negb (undefined_or_finite (opt_frameCount o)) then Throw "frameCount must be number"
  else
    match opt_duration o with
    | Some d =>
        match durationToFrameCount' d (opt_fps o) with
        | Throw m => Throw m
        | Ok fc => Ok (mkInjected (opt_fps o) startTime (Some d) (Some fc))
        end
    | None =>
        match opt_frameCount o with
        | Some fc =>
            match frameCountToDuration' fc (opt_fps o) with
            | Throw m => Throw m
            | Ok d => Ok (mkInjected (opt_fps o) startTime (Some d) (Some (Dbl fc)))
            end
        | None => Ok (mkInjected (opt_fps o) startTime None None)
        end
    end.

(** *** Time actions: [Page.#seekTimeActions]

    [this.timeActions] is an object whose keys are the non-negative
    integer times (in milliseconds) of the actions; it is a finite map from
    [nat] to the actions. *)

(** [String(n)] for a non-negative integer. *)
Definition key_string (n : nat) : string := pretty (N.of_nat n).

(** The order of the default [Array.prototype.sort] comparator: the
    operands are converted to strings and compared code unit by code unit. *)
Fixpoint string_ltb (s1 s2 : string) : bool :=
  match s1, s2 with
  | EmptyString, EmptyString => false
  | EmptyString, String _ _ => true
  | String _ _, EmptyString => false
  | String a s1', String b s2' =>
      let na := Ascii.nat_of_ascii a in
      let nb := Ascii.nat_of_ascii b in
      if (na <? nb)%nat then true
      else if (nb <? na)%nat then false
      else string_ltb s1' s2'
  end.

Definition default_ltb (x y : nat) : bool := string_ltb (key_string x) (key_string y).

Fixpoint insert_sorted (x : nat) (l : list nat) : list nat :=
  match l with
  | [] => [x]
  | y :: l' => if default_ltb y x then y :: insert_sorted x l' else x :: l
  end.

(** [.sort()] without a comparator (a stable sort; the keys are distinct,
    so their string forms are distinct and the result is determined). *)
Definition default_sort (l : list nat) : list nat := foldr insert_sorted [] l.

(** [parseInt(currentTime)] on the (non-negative) virtual time. *)
Definition parseInt_time (t : Q) : Z :=
  if Qle_bool 0 t then Qfloor t else - Qfloor (- t).

(** [#seekTimeActions(currentTime)]: the map left afterwards and the action
    invoked, if any. [if(!matchTimeNodes) return;] also returns on the key
    [0], which is falsy. *)
Definition seekTimeActions {A} (timeActions : gmap nat A) (currentTime : Q)
    : gmap nat A * option A :=
  let t := parseInt_time currentTime in
  let keys := default_sort (map fst (map_to_list timeActions)) in
  match list_find (fun time => Z.of_nat time <= t) keys with
  | None => (timeActions, None)
  | Some (_, 0%nat) => (timeActions, None)
  | Some (_, time) => (delete time timeActions, timeActions !! time)
  end.

End Page.

(** ** Time virtualization ([CaptureContext._timeVirtualizationRewrite]) *)
Module Timers.

(** An entry [[timerId, timestamp, delay, fn]] of [intervalCallbacks] or
    [timeoutCallbacks]; functions are named by a number. *)
Record timer := mkTimer {
  t_id : Z;
  t_stamp : Q;
  t_delay : Q;
  t_fn : nat
}.

(** The shim's state. [tasks] is the queue of the preserved real
    [setTimeout(() => fn(currentTime), 0)] calls made by the dispatchers,
    in the order they were made (the real timers of delay 0 run in that
    order). *)
Record state := mkState {
  timerId : Z;
  intervalCallbacks : list timer;
  timeoutCallbacks : list timer;
  currentTime : Q;
  tasks : list (nat * Q)
}.

Definition init_state : state := mkState 0 [] [] 0 [].

(** The [fn] argument: a function or any other value. *)
Inductive fnval := Fun (f : nat) | NotFun.
(** The delay argument: a number, [undefined], or a value whose
    conversion to a number is NaN. *)
Inductive delay := DNum (q : Q) | DUndefined | DNaN.

(** What a [clearTimeout]/[clearInterval] call does besides the queues. *)
Inductive clear_effect := NoCall | RealClear (id : Z).

Definition set_timerId (s : state) (id : Z) : state :=
  mkState id (intervalCallbacks s) (timeoutCallbacks s) (currentTime s) (tasks s).
Definition set_intervals (s : state) (l : list timer) : state :=
  mkState (timerId s) l (timeoutCallbacks s) (currentTime s) (tasks s).
Definition set_timeouts (s : state) (l : list timer) : state :=
  mkState (timerId s) (intervalCallbacks s) l (currentTime s) (tasks s).

(** [window.setInterval = (fn, interval) => ...] ([isNaN(undefined)] is
    true). The second component is the returned value ([None]:
    [undefined]). *)
Definition setInterval (fn : fnval) (interval : delay) (s : state) : state * option Z :=
  match fn, interval with
  | Fun f, DNum d =>
      let id := timerId s - 1 in
      (set_intervals (set_timerId s id)
         (intervalCallbacks s ++ [mkTimer id (currentTime s) d f]), Some id)
  | _, _ => (s, None)
  end.

(** [window.setTimeout = (fn, timeout = 0) => ...]. *)
Definition setTimeout (fn : fnval) (timeout : delay) (s : state) : state * option Z :=
  let timeout := match timeout with DUndefined => DNum 0 | t => t end in
  match fn, timeout with
  | Fun f, DNum d =>
      let id := timerId s - 1 in
      (set_timeouts (set_timerId s id)
         (timeoutCallbacks s ++ [mkTimer id (currentTime s) d f]), Some id)
  | _, _ => (s, None)
  end.

(** [window.clearInterval = timerId => ...]: a falsy ID returns, a
    non-negative one goes to the preserved [window.____clearInterval], a
    negative one is filtered out of the queue. *)
Definition clearInterval (id : Z) (s : state) : state * clear_effect :=
  if id =? 0 then (s, NoCall)
  else if 0 <=? id then (s, RealClear id)
  else (set_intervals s (filter (fun t => negb (t_id t =? id)) (intervalCallbacks s)), NoCall).

(** [window.clearTimeout = timerId => ...]. *)
Definition clearTimeout (id : Z) (s : state) : state * clear_effect :=
  if id =? 0 then (s, NoCall)
  else if 0 <=? id then (s, RealClear id)
  else (set_timeouts s (filter (fun t => negb (t_id t =? id)) (timeoutCallbacks s)), NoCall).

(** [currentTime < timestamp + interval] decides that an entry is not due. *)
Definition due (ct : Q) (t : timer) : bool :=
  Qle_bool (t_stamp t + t_delay t) ct.

(** The loop of [_callIntervalCallbacks(currentTime)]: a due entry gets
    [timestamp = currentTime] and its call is posted. *)
Fixpoint intervals_pass (ct : Q) (l : list timer) : list timer * list (nat * Q) :=
  match l with
  | [] => ([], [])
  | t :: l' =>
      let '(l'', posted) := intervals_pass ct l' in
      if due ct t then (mkTimer (t_id t) ct (t_delay t) (t_fn t) :: l'', (t_fn t, ct) :: posted)
      else (t :: l'', posted)
  end.

Definition callIntervalCallbacks (ct : Q) (s : state) : state :=
  let '(l, posted) := intervals_pass ct (intervalCallbacks s) in
  mkState (timerId s) l (timeoutCallbacks s) (currentTime s) (tasks s ++ posted).

(** The filter of [_callTimeoutCallbacks(currentTime)]: a due entry is
    dropped and its call is posted. *)
Fixpoint timeouts_pass (ct : Q) (l : list timer) : list timer * list (nat * Q) :=
  match l with
  | [] => ([], [])
  | t :: l' =>
      let '(l'', posted) := timeouts_pass ct l' in
      if due ct t then (l'', (t_fn t, ct) :: posted) else (t :: l'', posted)
  end.

Definition callTimeoutCallbacks (ct : Q) (s : state) : state :=
  let '(l, posted) := timeouts_pass ct (timeoutCallbacks s) in
  mkState (timerId s) (intervalCallbacks s) l (currentTime s) (tasks s ++ posted).

(** The timer part of a tick of the capture loop:
    [this.currentTime += this.frameInterval; this._callIntervalCallbacks(
    this.currentTime); this._callTimeoutCallbacks(this.currentTime);]. *)
Definition tick (frameInterval : Q) (s : state) : state :=
  let ct := (currentTime s + frameInterval)%Q in
  let s1 := mkState (timerId s) (intervalCallbacks s) (timeoutCallbacks s) ct (tasks s) in
  callTimeoutCallbacks ct (callIntervalCallbacks ct s1).

(** The calls a page can make to the shim, and the pre-start dispatcher's
    calls ([dispatchBeforeStart] runs timeouts, then intervals, at a
    pseudo-virtual time). *)
Inductive op :=
| OpSetInterval (fn : fnval) (d : delay)
| OpSetTimeout (fn : fnval) (d : delay)
| OpClearInterval (id : Z)
| OpClearTimeout (id : Z)
| OpTick (frameInterval : Q)
| OpDispatchBeforeStart (t : Q).

Definition step (s : state) (o : op) : state :=
  match o with
  | OpSetInterval fn d => fst (setInterval fn d s)
  | OpSetTimeout fn d => fst (setTimeout fn d s)
  | OpClearInterval id => fst (clearInterval id s)
  | OpClearTimeout id => fst (clearTimeout id s)
  | OpTick fi => tick fi s
  | OpDispatchBeforeStart t => callIntervalCallbacks t (callTimeoutCallbacks t s)
  end.

(** The state reached from a fresh context by a sequence of calls. *)
Definition run (ops : list op) : state := fold_left step ops init_state.

End Timers.

(** ** Dispatch media: [VideoCanvas.canPlay] and [VideoCanvas.canDestory] *)
Module Media.

(** The fields read by the two predicates. The constructor asserts that
    [startTime] and [endTime] are not NaN; times are exact rationals. *)
Record videoCanvas := mkVideoCanvas {
  vc_startTime : Q;
  vc_endTime : Q;
  destoryed : bool
}.

Definition Qltb (x y : Q) : bool := negb (Qle_bool y x).

(** [canPlay(time)]; [None] is the [undefined] returned once destroyed. *)
Definition canPlay (m : videoCanvas) (time : Q) : option bool :=
  if destoryed m then None
  else if Qltb time (vc_startTime m) || Qle_bool (vc_endTime m) time then Some false
  else Some true.

(** [canDestory(time)]. *)
Definition canDestory (m : videoCanvas) (time : Q) : bool :=
  if destoryed m then false else Qle_bool (vc_endTime m) time.

End Media.

(** ** The synthesizers ([Synthesizer], [VideoChunk], [ChunkSynthesizer]) *)
Module Synth.
Import JsNumber.

Definition SUPPORT_FORMAT : list string := ["mp4"; "webm"].

(** [x % 2 === 0] on a number: true on the even integers (and zeros),
    false on the other finite numbers and on infinities and NaN. *)
Definition rem2_is_zero (x : float) : bool :=
  match Prim2SF x with
  | S754_zero _ => true
  | S754_finite _ m e => if 1 <=? e then true else Z.pos m mod 2 ^ (1 - e) =? 0
  | _ => false
  end.

(** The options read by the first asserts of the [Synthesizer]
    constructor. *)
Record options := mkSynthOptions {
  so_width : float;
  so_height : float;
  so_duration : float;
  so_outputPath : option string;
  so_fps : option float;
  so_format : option string
}.

(** The first asserts of [new Synthesizer(options)], in source order
    ([isVideoChunk] is [this._isVideoChunk()]); the remaining asserts check
    options that are not modelled here. *)
Definition constructor_checks (isVideoChunk : bool) (o : options) : result unit :=
  if negb (isFinite (so_width o) && rem2_is_zero (so_width o)) then Throw "width must be even number"
  else if negb (isFinite (so_height o) && rem2_is_zero (so_height o)) then Throw "height must be even number"
  else if negb (isFinite (so_duration o)) then Throw "synthesis duration must be number"
  else if negb (bool_decide (is_Some (so_outputPath o)) || isVideoChunk) then Throw "outputPath must be string"
  else if negb (match so_fps o with None => true | Some f => isFinite f end) then Throw "synthesis fps must be number"
  else if negb (match so_format o with
                | None => true
                | Some f => bool_decide (f ∈ SUPPORT_FORMAT)
                end) then Throw "format is not supported"
  else Ok tt.

End Synth.

Module Chunks.

(** A [Transition]: [duration] defaults to 500. *)
Record transition := mkTransition { tr_id : string; tr_duration : Q }.

Definition new_Transition (id : string) (duration : option Q) : transition :=
  mkTransition id (default 500%Q duration).

(** An [Audio] descriptor: [startTime] and [endTime] may be undefined;
    [a_tag] names the descriptor. *)
Record audio := mkAudio {
  a_startTime : option Q;
  a_endTime : option Q;
  a_tag : nat
}.

(** The fields of a [VideoChunk] instance that the chunk synthesizer
    reads. [frameCount] is the frame counter [_frameCount] (0 until the
    chunk renders) and [completed] is [isCompleted()]. *)
Record chunk := mkChunk {
  c_width : Q;
  c_height : Q;
  c_fps : Q;
  c_duration : Q;
  c_transition : option transition;
  c_frameCount : Z;
  c_completed : bool;
  c_audios : list audio
}.

(** [get transitionDuration()]. *)
Definition transitionDuration (c : chunk) : Q :=
  match c_transition c with Some t => tr_duration t | None => 0%Q end.

(** [Synthesizer.getOutputDuration()]:
    [if (!this.fps || !this._frameCount) return this.duration || 0;
     return Math.floor(this._frameCount / this.fps) * 1000;]. *)
Definition synth_getOutputDuration (fps : Q) (frameCount : Z) (duration : Q) : Q :=
  if Qeq_bool fps 0 || (frameCount =? 0) then (if Qeq_bool duration 0 then 0%Q else duration)
  else inject_Z (Qfloor (inject_Z frameCount / fps) * 1000).

(** [VideoChunk.getOutputDuration()]. *)
Definition getOutputDuration (c : chunk) : Q :=
  (synth_getOutputDuration (c_fps c) (c_frameCount c) (c_duration c) - transitionDuration c)%Q.

Definition setTransition (c : chunk) (t : transition) : chunk :=
  mkChunk (c_width c) (c_height c) (c_fps c) (c_duration c) (Some t)
    (c_frameCount c) (c_completed c) (c_audios c).

(** The fields of the [ChunkSynthesizer] touched by [input]; the
    constructor sets [duration] to 0. *)
Record csynth := mkCsynth {
  s_width : Q;
  s_height : Q;
  s_fps : Q;
  s_duration : Q;
  s_chunks : list chunk
}.

(** [TRANSITION_IDS = Object.values(TRANSITION)]. *)
Definition TRANSITION_IDS : list string := [
  "fade"; "wipeleft"; "wiperight"; "wipeup"; "wipedown"; "slideleft";
  "slideright"; "slideup"; "slidedown"; "circlecrop"; "rectcrop"; "distance";
  "fadeblack"; "fadewhite"; "radial"; "smoothleft"; "smoothright";
  "smoothup"; "smoothdown"; "circleopen"; "circleclose"; "vertopen";
  "vertclose"; "horzopen"; "horzclose"; "dissolve"; "pixelize"; "diagtl";
  "diagtr"; "diagbl"; "diagbr"; "hlslice"; "hrslice"; "vuslice"; "vdslice";
  "hblur"; "fadegrays"; "wipetl"; "wipetr"; "wipebl"; "wipebr"; "squeezeh";
  "squeezev"; "zoomin"; "hlwind"; "hrwind"; "vuwind"; "vdwind"; "coverleft";
  "coverright"; "coverup"; "coverdown"; "revealleft"; "revealright";
  "revealup"; "revealdown"].

(** The asserts of [new Transition({ id, duration })] on an id string and a
    numeric or undefined duration (the type and duration asserts pass):
    the id must be one of [TRANSITION_IDS]. *)
Definition transition_check (t : option (string * option Q)) : result unit :=
  match t with
  | Some (id, _) =>
      if bool_decide (id ∈ TRANSITION_IDS) then Ok tt
      else Throw (String.append "Transition id " (String.append id
             " may not be supported, please refer to http://trac.ffmpeg.org/wiki/Xfade"))
  | None => Ok tt
  end.

(** [transition && chunk.setTransition(...)] once the transition is
    built. *)
Definition with_transition (c : chunk) (t : option (string * option Q)) : chunk :=
  match t with Some (id, d) => setTransition c (new_Transition id d) | None => c end.

(** [ChunkSynthesizer.input(chunk, transition)] on a [VideoChunk]
    instance (the defaulting of its width, height and fps leaves an
    instance's values unchanged); the transition, when given, is an object
    with an id and an optional duration, checked by the [Transition]
    constructor before the chunk is pushed. *)
Definition input (s : csynth) (c : chunk) (t : option (string * option Q)) : result csynth :=
  if negb (Qeq_bool (c_width c) (s_width s)) then Throw "input chunk width does not match the previous block"
  else if negb (Qeq_bool (c_height c) (s_height s)) then Throw "input chunk height does not match the previous block"
  else if negb (Qeq_bool (c_fps c) (s_fps s)) then Throw "input chunk fps does not match the previous block"
  else
    match transition_check t with
    | Throw m => Throw m
    | Ok _ =>
        let c := with_transition c t in
        Ok (mkCsynth (c_width c) (c_height c) (c_fps c)
              (s_duration s + getOutputDuration c)%Q (s_chunks s ++ [c]))
    end.

(** Inputs a sequence of chunks, stopping at the first throw. *)
Fixpoint input_all (s : csynth) (l : list (chunk * option (string * option Q))) : result csynth :=
  match l with
  | [] => Ok s
  | (c, t) :: l' =>
      match input s c t with
      | Throw m => Throw m
      | Ok s' => input_all s' l'
      end
  end.

(** The offsetting of [ChunkSynthesizer.start] and of the [audioAdd]
    handler of [renderChunk]: [startTime] defaults to 0, [endTime] to the
    chunk's duration, and both are moved by [offsetTime]. *)
Definition shift (offsetTime chunkDuration : Q) (a : audio) : audio :=
  mkAudio (Some (default 0%Q (a_startTime a) + offsetTime)%Q)
          (Some (default chunkDuration (a_endTime a) + offsetTime)%Q)
          (a_tag a).

(** The [this.chunks.forEach] of [start()], from chunk index [i] with the
    running [offsetTime]: the chunk's own audios added to the composite,
    and the [renderChunk(chunk, offsetTime)] calls made for the chunks not
    yet completed. *)
Fixpoint start_loop (offsetTime : Q) (i : nat) (cs : list chunk)
    : list (nat * audio) * list (nat * Q) :=
  match cs with
  | [] => ([], [])
  | c :: cs' =>
      let own := map (fun a => (i, shift offsetTime (c_duration c) a)) (c_audios c) in
      let render := if c_completed c then [] else [(i, offsetTime)] in
      let '(rest, renders) := start_loop (offsetTime + getOutputDuration c)%Q (S i) cs' in
      (own ++ rest, render ++ renders)
  end.

Fixpoint render_offset (i : nat) (renders : list (nat * Q)) : option Q :=
  match renders with
  | [] => None
  | (j, off) :: r => if Nat.eqb i j then Some off else render_offset i r
  end.

(** The composite's audio list after [start()], given the [audioAdd]
    events the chunks emit while they render, in arrival order (a chunk
    index and the descriptor); an event is handled by the listener that
    [renderChunk] registered on that chunk. *)
Definition start (cs : list chunk) (arrivals : list (nat * audio)) : list (nat * audio) :=
  let '(own, renders) := start_loop 0 0 cs in
  own ++ omap (fun '(i, a) =>
                 match render_offset i renders with
                 | Some off =>
                     match cs !! i with
                     | Some c => Some (i, shift off (c_duration c) a)
                     | None => None
                     end
                 | None => None
                 end) arrivals.

End Chunks.

(** ** The preprocessor payload: [VideoProcessTask.#packData] (host) and
    [VideoCanvas._unpackData] (page) *)
Module Payload.

(** JSON values; JSON numbers in these payloads are integers. *)
Local Set Warnings "-register-all".
Inductive json :=
| JNull
| JBool (b : bool)
| JNum (z : Z)
| JStr (s : string)
| JArr (l : list json)
| JObj (l : list (string * json)).









(** The decimal digits of [String(n)]. *)
Fixpoint uint_bytes (u : Decimal.uint) : list byte :=
  match u with
  | Decimal.Nil => []
  | Decimal.D0 u => x30 :: uint_bytes u
  | Decimal.D1 u => x31 :: uint_bytes u
  | Decimal.D2 u => x32 :: uint_bytes u
  | Decimal.D3 u => x33 :: uint_bytes u
  | Decimal.D4 u => x34 :: uint_bytes u
  | Decimal.D5 u => x35 :: uint_bytes u
  | Decimal.D6 u => x36 :: uint_bytes u
  | Decimal.D7 u => x37 :: uint_bytes u
  | Decimal.D8 u => x38 :: uint_bytes u
  | Decimal.D9 u => x39 :: uint_bytes u
  end.

Definition dec_bytes (n : N) : list byte := uint_bytes (N.to_uint n).


(** [parseInt] of a string that starts with decimal digits reads them; a
    string that does not start with a digit is read as NaN ([None]).
    (The header only ever holds digits, so the leading white space, sign
    and [0x] prefix that [parseInt] also accepts are not modelled.) *)
Fixpoint lead_digits (bs : list byte) : Decimal.uint :=
  match bs with
  | [] => Decimal.Nil
  | b :: bs' =>
      match b with
      | x30 => Decimal.D0 (lead_digits bs')
      | x31 => Decimal.D1 (lead_digits bs')
      | x32 => Decimal.D2 (lead_digits bs')
      | x33 => Decimal.D3 (lead_digits bs')
      | x34 => Decimal.D4 (lead_digits bs')
      | x35 => Decimal.D5 (lead_digits bs')
      | x36 => Decimal.D6 (lead_digits bs')
      | x37 => Decimal.D7 (lead_digits bs')
      | x38 => Decimal.D8 (lead_digits bs')
      | x39 => Decimal.D9 (lead_digits bs')
      | _ => Decimal.Nil
      end
  end.

Definition parseInt (bs : list byte) : option N :=
  match lead_digits bs with
  | Decimal.Nil => None
  | u => Some (N.of_uint u)
  end.

(** [ArrayBuffer.prototype.slice(begin, end)]; a NaN bound ([None]) counts
    as 0. *)
Definition relative (len : Z) (i : option Z) : Z :=
  let i := default 0 i in
  if i <? 0 then Z.max (len + i) 0 else Z.min i len.

Definition slice (buf : list byte) (b e : option Z) : list byte :=
  let len := Z.of_nat (length buf) in
  let first := relative len b in
  let final := relative len e in
  take (Z.to_nat (final - first)) (drop (Z.to_nat first) buf).

(** A value of the unpacked object: a [Uint8Array] or another value. *)
Inductive uval := UBytes (b : list byte) | UJson (v : json).

(** The number read from [obj[key][i]] ([None]: NaN after addition). *)
Definition num_at (l : list json) (i : nat) : option Z :=
  match nth_error l i with Some (JNum z) => Some z | _ => None end.

(** The body of the [for (const key in obj)] loop of [_unpackData]. *)
Definition unpack_value (buf : list byte) (bufferOffset : Z) (v : json) : uval :=
  match v with
  | JArr (JStr s :: rest) =>
      if String.eqb s "buffer" then
        UBytes (slice buf (option_map (Z.add bufferOffset) (num_at rest 0))
                          (option_map (Z.add bufferOffset) (num_at rest 1)))
      else UJson v
  | _ => UJson v
  end.

(** What [JSON.parse] returns: an object, whose keys the loop visits, or
    another value, which [_unpackData] returns as it is. *)
Inductive unpacked := UObject (l : list (string * uval)) | UOther (v : json).

Section Unpack.
(** [JSON.parse(new TextDecoder("utf-8").decode(bytes))], [None] when
    it throws. *)
Variable JSON_parse : list byte -> option json.

(** [_unpackData(packedData)]. *)
Definition unpackData (buf : list byte) : result unpacked :=
  match list_find (fun b => Byte.eqb b x21 = true) buf with
  | None => Throw "Invalid data format: header delimiter not found"
  | Some (delimiterIndex, _) =>
      match parseInt (take delimiterIndex buf) with
      | None => Throw "Invalid data format: Invalid data length"
      | Some objLength =>
          if (objLength =? 0)%N
             || (Z.of_N objLength >? Z.of_nat (length buf) - Z.of_nat delimiterIndex - 1)
          then Throw "Invalid data format: Invalid data length"
          else
            let objBytes := take (N.to_nat objLength) (drop (S delimiterIndex) buf) in
            let bufferOffset := Z.of_nat (S delimiterIndex) + Z.of_N objLength in
            match JSON_parse objBytes with
            | None => Throw "SyntaxError"
            | Some (JObj obj) =>
                Ok (UObject (map (fun '(k, v) => (k, unpack_value buf bufferOffset v)) obj))
            | Some v => Ok (UOther v)
            end
      end
  end.
End Unpack.



End Payload.

(** ** Frame batching of the synthesizer: [Synthesizer.input], [#drain]
    and [endInput] *)
Module FrameWriter.

(** The fields written by [input] and [#drain]. Frames are non-empty
    [Buffer]s named by a number (a [Buffer] is truthy); [frameBuffers] is the
    JavaScript array [#frameBuffers] ([None] is a hole), [pipeStream] tells
    whether [#pipeStream] is set, and [written] is the data written to the
    pipe streams so far, in order. *)
Record writer := mkWriter {
  frameBuffers : list (option nat);
  frameBufferIndex : nat;
  frameCount : nat;
  pipeStream : bool;
  written : list nat
}.

(** The state the constructor leaves:
    [this.#frameBuffers = new Array(this.parallelWriteFrames)], index 0,
    [_frameCount] 0 and no pipe stream. *)
Definition fresh (parallelWriteFrames : nat) : writer :=
  mkWriter (repeat None parallelWriteFrames) 0 0 false [].

(** [a[i] = x] on a JavaScript array: past the end the array grows, with
    holes before [i]. *)
Definition array_store (a : list (option nat)) (i : nat) (x : nat) : list (option nat) :=
  if (i <? length a)%nat then <[i := Some x]> a
  else a ++ repeat None (i - length a) ++ [Some x].

(** [Buffer.concat(list)]: the frames in order; a hole makes it throw. *)
Fixpoint buffer_concat (l : list (option nat)) : option (list nat) :=
  match l with
  | [] => Some []
  | None :: _ => None
  | Some b :: l' => match buffer_concat l' with Some r => Some (b :: r) | None => None end
  end.

(** [input(buffer)]. *)
Definition input (parallelWriteFrames : nat) (buffer : nat) (w : writer) : result writer :=
  let bufs := array_store (frameBuffers w) (frameBufferIndex w) buffer in
  let index := S (frameBufferIndex w) in
  if (index <? parallelWriteFrames)%nat
  then Ok (mkWriter bufs index (S (frameCount w)) true (written w))
  else
    match buffer_concat bufs with
    | None => Throw "The list argument must be an instance of Buffer or Uint8Array"
    | Some data => Ok (mkWriter bufs 0 (S (frameCount w)) true (written w ++ data))
    end.

(** [#drain()]: the frames of the array that are set, when the index is
    not 0 ([this.#frameBuffers.filter(v => v)]), then the stream is ended
    and dropped. *)
Definition drain (w : writer) : writer :=
  if negb (pipeStream w) then w
  else
    mkWriter (frameBuffers w) 0 (frameCount w) false
      (if (0 <? frameBufferIndex w)%nat then written w ++ omap id (frameBuffers w) else written w).

(** Successive [input] calls, stopping at the first throw. *)
Fixpoint input_all (parallelWriteFrames : nat) (fs : list nat) (w : writer) : result writer :=
  match fs with
  | [] => Ok w
  | f :: fs' =>
      match input parallelWriteFrames f w with
      | Throw m => Throw m
      | Ok w' => input_all parallelWriteFrames fs' w'
      end
  end.

End FrameWriter.

(** ** Drawing a video: [VideoCanvas.seek], [isEnd], [destory] and the
    media dispatch of the capture loop *)
Module VideoSeek.
Import Media.

(** The fields of [this.config] read by [seek] (set by a successful
    [load()]); times are exact rationals. *)
Record vconfig := mkVConfig {
  cf_frameInterval : Q;
  cf_frameCount : Z;
  cf_duration : Q
}.

(** The fields of a [VideoCanvas] touched by the dispatch: [vc] holds
    [startTime], [endTime] and [destoryed] (read by [canPlay] and
    [canDestory]); [ready] is [isReady()] (a configured decoder). *)
Record vcanvas := mkCanvas {
  vc : videoCanvas;
  loop : bool;
  removed : bool;
  ready : bool;
  frameIndex : option Z;
  currentTime : Q;
  offsetTime : Q;
  config : vconfig
}.

Definition set_destoryed (v : videoCanvas) : videoCanvas :=
  mkVideoCanvas (vc_startTime v) (vc_endTime v) true.

(** [isEnd()]: [this.frameIndex >= this.config.frameCount - 1], where a
    [null] index compares as 0. *)
Definition isEnd (cv : vcanvas) : bool :=
  cf_frameCount (config cv) - 1 <=? default 0 (frameIndex cv).

(** [seek(time)]: the canvas afterwards and the index of the frame drawn,
    if any. When a looping video ends, [offsetTime] grows by [time] and
    [reset()] clears the index and the time and resets the decoder (a reset
    [VideoDecoder] is no longer "configured"). *)
Definition seek (time : Q) (cv : vcanvas) : vcanvas * option Z :=
  if destoryed (vc cv) then (cv, None)
  else
    let fi := Qfloor (time / cf_frameInterval (config cv)) in
    if bool_decide (frameIndex cv = Some fi) then (cv, None)
    else if removed cv || (negb (loop cv) && isEnd cv) || (cf_frameCount (config cv) <=? fi)
    then (cv, None)
    else
      let cv1 := mkCanvas (vc cv) (loop cv) (removed cv) (ready cv) (Some fi) time
                          (offsetTime cv) (config cv) in
      if loop cv1 && (isEnd cv1 || Qle_bool (cf_duration (config cv1)) (currentTime cv1))
      then (mkCanvas (vc cv1) (loop cv1) (removed cv1) false None 0
                     (offsetTime cv1 + currentTime cv1)%Q (config cv1), Some fi)
      else (cv1, Some fi).

(** [destory()]: the decoder is closed and dropped, the index and time
    are cleared and [destoryed] is set. *)
Definition destory (cv : vcanvas) : vcanvas :=
  mkCanvas (set_destoryed (vc cv)) (loop cv) (removed cv) false None 0 (offsetTime cv) (config cv).

(** What the dispatch does to a video, tagged with the tick's time. *)
Inductive mevent := MDestroy | MLoad (ok : bool) | MDraw (i : Z).

(** [const mediaCurrentTime = this.currentTime - media.startTime -
    (media.offsetTime || 0); await media.seek(mediaCurrentTime > 0 ?
    mediaCurrentTime : 0);], after the events [evs] of the tick. *)
Definition seek_media (ct : Q) (evs : list (Q * mevent)) (cv : vcanvas) : vcanvas * list (Q * mevent) :=
  let mediaCurrentTime := (ct - vc_startTime (vc cv) - offsetTime cv)%Q in
  let '(cv', drawn) := seek (if Qle_bool mediaCurrentTime 0 then 0%Q else mediaCurrentTime) cv in
  (cv', evs ++ match drawn with Some i => [(ct, MDraw i)] | None => [] end).

(** The body of [this.dispatchMedias.map(...)] for a video at
    [this.currentTime = ct]; [loadOk] is what [await media.load()] gives
    (a failed load calls [destory()] itself). *)
Definition dispatch (ct : Q) (loadOk : bool) (cv : vcanvas) : vcanvas * list (Q * mevent) :=
  if canDestory (vc cv) ct then (destory cv, [(ct, MDestroy)])
  else
    match canPlay (vc cv) ct with
    | Some true =>
        if ready cv then seek_media ct [] cv
        else if loadOk then
          seek_media ct [(ct, MLoad true)]
            (mkCanvas (vc cv) (loop cv) (removed cv) true (frameIndex cv) (currentTime cv)
                      (offsetTime cv) (config cv))
        else (destory cv, [(ct, MLoad false)])
    | _ => (cv, [])
    end.

(** The dispatch of a video over successive ticks, given each tick's time
    and the outcome a [load()] would have at that tick. *)
Fixpoint dispatch_run (ticks : list (Q * bool)) (cv : vcanvas) : vcanvas * list (Q * mevent) :=
  match ticks with
  | [] => (cv, [])
  | (ct, ok) :: ticks' =>
      let '(cv1, evs1) := dispatch ct ok cv in
      let '(cv2, evs2) := dispatch_run ticks' cv1 in
      (cv2, evs1 ++ evs2)
  end.

(** Successive [seek] calls, with the indices drawn. *)
Fixpoint seek_run (times : list Q) (cv : vcanvas) : vcanvas * list Z :=
  match times with
  | [] => (cv, [])
  | t :: times' =>
      let '(cv1, d) := seek t cv in
      let '(cv2, ds) := seek_run times' cv1 in
      (cv2, option_list d ++ ds)
  end.

End VideoSeek.

(** ** [util.millisecondsToHmss] *)
Module UtilTime.

(** [n > 9 ? n : "0" + n] in the template string. *)
Definition pad2 (n : Z) : string := if 9 <? n then pretty n else String.append "0" (pretty n).

(** [millisecondsToHmss(milliseconds)] on a number written in decimal
    notation, with the arithmetic of Z. It agrees with the double
    arithmetic of the source on the whole numbers [0 <= m < 10^15]: there
    [parseInt] gives [m] back, the products, differences and remainders of
    whole numbers are exact, and the double quotients by 1000, 3600 and 60
    lie within less than half the distance to the next integer of the
    exact ones, so [Math.floor] gives the floor division. Above 2^53 they
    differ. *)
Definition millisecondsToHmss (milliseconds : Q) : string :=
  let milliseconds := Page.parseInt_time milliseconds in
  let sec := milliseconds / 1000 in
  let hours := sec / 3600 in
  let minutes := (sec - hours * 3600) / 60 in
  let seconds := sec - hours * 3600 - minutes * 60 in
  let ms := Z.rem milliseconds 60000 - seconds * 1000 in
  String.append (pad2 hours) (String.append ":" (String.append (pad2 minutes)
    (String.append ":" (String.append (pad2 seconds) (String.append "." (pretty ms)))))).

End UtilTime.

(** ** The output format chosen by the [Synthesizer] constructor *)
Module SynthFormat.
Import JsNumber Synth.

Section Format.
(** [path.extname(outputPath).substring(1)]. *)
Variable extname : string -> string.
(** The constructor's asserts on the options not modelled here (cover,
    encoders, bitrates, volume, ...). *)
Variable other_checks : result unit.

(** A string option as a JavaScript condition: [undefined] and [""] are
    falsy. *)
Definition truthy_str (s : option string) : bool :=
  match s with Some s => negb (String.eqb s "") | None => false end.

(** The constructor up to [this.format] and [this.fps]: the asserts, then
    the format from [options.format], else from the output path's extension
    (not for a [VideoChunk]), else [SUPPORT_FORMAT[0]]; [fps] defaults to
    30. *)
Definition constructor_format (isVideoChunk : bool) (o : options) : result (string * float) :=
  match constructor_checks isVideoChunk o with
  | Throw m => Throw m
  | Ok _ =>
      match other_checks with
      | Throw m => Throw m
      | Ok _ =>
          let fps := default 30%float (so_fps o) in
          if negb (truthy_str (so_format o)) && truthy_str (so_outputPath o) && negb isVideoChunk then
            let _format := extname (default "" (so_outputPath o)) in
            if String.eqb _format "" then Throw "Unable to recognize output video format"
            else if negb (bool_decide (_format ∈ SUPPORT_FORMAT)) then Throw "Unsupported output video format"
            else Ok (_format, fps)
          else
            Ok (match so_format o with
                | Some f => if String.eqb f "" then "mp4" else f
                | None => "mp4"
                end, fps)
      end
  end.
End Format.

End SynthFormat.

(** ** CSS animations: [Page.#seekCSSAnimations] *)
Module CssAnimations.
Import Media.

(** An entry of [this.cssAnimations], as pushed by the
    [Animation.animationStarted] listener with [startTime: null] ([None]);
    [an_iterations] is [None] when undefined or null. *)
Record animation := mkAnimation {
  an_id : nat;
  an_startTime : option Q;
  an_duration : Q;
  an_iterations : option Q;
  an_delay : Q
}.

(** The numbers [duration * (iterations || Infinity) + delay] can take. *)
Inductive ext := Fin (q : Q) | PosInf | NegInf | NaN.

Definition threshold (a : animation) : ext :=
  let iterations := match an_iterations a with
                    | Some q => if Qeq_bool q 0 then None else Some q
                    | None => None
                    end in
  match iterations with
  | Some q => Fin (an_duration a * q + an_delay a)%Q
  | None =>
      if Qltb 0 (an_duration a) then PosInf
      else if Qltb (an_duration a) 0 then NegInf
      else NaN
  end.

(** [x >= threshold]. *)
Definition ge (x : Z) (t : ext) : bool :=
  match t with
  | Fin q => Qle_bool q (inject_Z x)
  | PosInf => false
  | NegInf => true
  | NaN => false
  end.

(** The filter callback on one animation at [currentTime = ct]: whether it
    is kept, the ids pushed to [pauseAnimationIds], the seeks sent
    ([Animation.seekAnimations] with the id and the time) and the animation
    with its [startTime] set ([_.defaultTo(animation.startTime, ct)]). *)
Definition visit (ct : Q) (a : animation) : bool * list nat * list (nat * Z) * animation :=
  let paused := match an_startTime a with None => [an_id a] | Some _ => [] end in
  let startTime := default ct (an_startTime a) in
  let a' := mkAnimation (an_id a) (Some startTime) (an_duration a) (an_iterations a) (an_delay a) in
  let animationCurrentTime := Qfloor (ct - startTime) in
  if animationCurrentTime <? 0 then (true, paused, [], a')
  else (negb (ge animationCurrentTime (threshold a')), paused, [(an_id a, animationCurrentTime)], a').

Fixpoint css_filter (ct : Q) (l : list animation) : list animation * list nat * list (nat * Z) :=
  match l with
  | [] => ([], [], [])
  | a :: l' =>
      let '(keep, p, s, a') := visit ct a in
      let '(kept, ps, ss) := css_filter ct l' in
      ((if keep then a' :: kept else kept), p ++ ps, s ++ ss)
  end.

(** [#seekCSSAnimations(currentTime)]: the new [this.cssAnimations], the
    ids paused ([Animation.setPaused] is sent when there are some) and the
    seeks sent. *)
Definition seekCSSAnimations (ct : Q) (l : list animation) : list animation * list nat * list (nat * Z) :=
  match l with
  | [] => ([], [], [])
  | _ => css_filter ct l
  end.

(** Successive calls, one per tick time, with what each call sent. *)
Fixpoint css_calls (ts : list Q) (l : list animation)
    : list animation * list (list nat * list (nat * Z)) :=
  match ts with
  | [] => (l, [])
  | t :: ts' =>
      let '(l1, p, s) := seekCSSAnimations t l in
      let '(l2, outs) := css_calls ts' l1 in
      (l2, (p, s) :: outs)
  end.

End CssAnimations.

(** * Properties *)

(** Boolean comparisons of rationals as propositions. *)
Lemma Qle_bool_true_iff (x y : Q) : Qle_bool x y = true <-> (x <= y)%Q.
Proof. apply Qle_bool_iff. Qed.

Lemma Qle_bool_false_iff (x y : Q) : Qle_bool x y = false <-> (y < x)%Q.
Proof.
  split.
  - intros H. apply Qnot_le_lt. intros Hle. apply Qle_bool_iff in Hle. congruence.
  - intros H. destruct (Qle_bool x y) eqn:E; [|reflexivity].
    apply Qle_bool_iff in E. exfalso. apply (Qlt_not_le y x); assumption.
Qed.

Module MediaFacts.
Import Media.

(** C9: for a media that has not been destroyed, [canPlay(t)] is true
    exactly when [startTime <= t < endTime], and [canDestory(t)] is true
    exactly when [t >= endTime]. *)
Theorem canPlay_canDestory_window (m : videoCanvas) (t : Q) :
  destoryed m = false ->
  (canPlay m t = Some true <-> (vc_startTime m <= t /\ t < vc_endTime m)%Q) /\
  (canDestory m t = true <-> (vc_endTime m <= t)%Q).
Proof.
  intros Hd. unfold canPlay, canDestory, Qltb. rewrite Hd. split.
  - destruct (Qle_bool (vc_startTime m) t) eqn:E1;
    destruct (Qle_bool (vc_endTime m) t) eqn:E2; simpl;
    rewrite ?Qle_bool_true_iff, ?Qle_bool_false_iff in E1;
    rewrite ?Qle_bool_true_iff, ?Qle_bool_false_iff in E2;
    split; intros H; try (split; [lra|lra]); try reflexivity;
    try discriminate; destruct H; lra.
  - apply Qle_bool_true_iff.
Qed.

Lemma canPlay_canDestory_window_witness :
  destoryed (mkVideoCanvas 0 10 false) = false /\
  ((canPlay (mkVideoCanvas 0 10 false) 5 = Some true <->
    (vc_startTime (mkVideoCanvas 0 10 false) <= 5 /\ 5 < vc_endTime (mkVideoCanvas 0 10 false))%Q) /\
   (canDestory (mkVideoCanvas 0 10 false) 5 = true <->
    (vc_endTime (mkVideoCanvas 0 10 false) <= 5)%Q)).
Proof. split; [reflexivity | apply canPlay_canDestory_window; reflexivity]. Defined.

End MediaFacts.

Module TimerFacts.
Import Timers.

(** The calls posted by one pass over the interval queue: one per due
    entry, in queue order. *)
Lemma intervals_pass_posted (ct : Q) (l : list timer) :
  snd (intervals_pass ct l) = map (fun t => (t_fn t, ct)) (filter (fun t => due ct t) l).
Proof.
  induction l as [|t l IH]; [reflexivity|].
  simpl. destruct (intervals_pass ct l) as [l'' posted] eqn:E. simpl in IH.
  rewrite filter_cons. destruct (due ct t) eqn:Hd;
    [rewrite decide_True by exact I | rewrite decide_False by (intros [])];
    simpl; now rewrite IH.
Qed.

Lemma timeouts_pass_posted (ct : Q) (l : list timer) :
  snd (timeouts_pass ct l) = map (fun t => (t_fn t, ct)) (filter (fun t => due ct t) l).
Proof.
  induction l as [|t l IH]; [reflexivity|].
  simpl. destruct (timeouts_pass ct l) as [l'' posted] eqn:E. simpl in IH.
  rewrite filter_cons. destruct (due ct t) eqn:Hd;
    [rewrite decide_True by exact I | rewrite decide_False by (intros [])];
    simpl; now rewrite IH.
Qed.

(** The interval pass keeps the queue's entries and their IDs, in order. *)
Lemma intervals_pass_ids (ct : Q) (l : list timer) :
  map t_id (fst (intervals_pass ct l)) = map t_id l.
Proof.
  induction l as [|t l IH]; [reflexivity|].
  simpl. destruct (intervals_pass ct l) as [l'' posted] eqn:E. simpl in IH.
  destruct (due ct t); simpl; now rewrite IH.
Qed.

(** The timeout pass keeps a sub-list of the queue. *)
Lemma timeouts_pass_sublist (ct : Q) (l : list timer) :
  sublist (fst (timeouts_pass ct l)) l.
Proof.
  induction l as [|t l IH]; [constructor|].
  simpl. destruct (timeouts_pass ct l) as [l'' posted] eqn:E. simpl in IH.
  destruct (due ct t); simpl.
  - now apply sublist_cons.
  - now apply sublist_skip.
Qed.

(** C8: the calls a tick posts are, after those already queued, one per
    interval entry due at the tick's [currentTime], in insertion order,
    then one per timeout entry due at that time, in insertion order. *)
Theorem tick_dispatch_order (fi : Q) (s : state) :
  tasks (tick fi s) =
    tasks s
    ++ map (fun t => (t_fn t, (currentTime s + fi)%Q))
           (filter (fun t => due (currentTime s + fi) t) (intervalCallbacks s))
    ++ map (fun t => (t_fn t, (currentTime s + fi)%Q))
           (filter (fun t => due (currentTime s + fi) t) (timeoutCallbacks s)).
Proof.
  unfold tick, callTimeoutCallbacks, callIntervalCallbacks. simpl.
  pose proof (intervals_pass_posted (currentTime s + fi) (intervalCallbacks s)) as H1.
  pose proof (timeouts_pass_posted (currentTime s + fi) (timeoutCallbacks s)) as H2.
  destruct (intervals_pass (currentTime s + fi) (intervalCallbacks s)) as [l1 p1].
  simpl. destruct (timeouts_pass (currentTime s + fi) (timeoutCallbacks s)) as [l2 p2].
  simpl in *. subst p1 p2. now rewrite app_assoc.
Qed.

End TimerFacts.

Module PageFacts.
Import Page.

(** C2 (failing input): with actions registered at 9 ms and 10 ms, the
    call at time 20 sorts the keys as the strings "10" and "9", so it
    consumes and invokes the action at 10 ms, not the one at the smallest
    key 9; and an action registered at 0 ms is never invoked, its key being
    falsy. *)
Lemma seekTimeActions_string_order :
  seekTimeActions (<[9%nat := 1%nat]> (<[10%nat := 2%nat]> (∅ : gmap nat nat))) 20%Q =
    (<[9%nat := 1%nat]> ∅, Some 2%nat) /\
  seekTimeActions ({[0%nat := 1%nat]} : gmap nat nat) 5%Q = ({[0%nat := 1%nat]}, None).
Proof. split; vm_compute; reflexivity. Qed.

End PageFacts.

Section SublistFacts.
Context {A B : Type}.

Lemma sublist_map_In (f : A -> B) (l1 l2 : list A) :
  sublist l1 l2 -> sublist (map f l1) (map f l2).
Proof. induction 1; simpl; constructor; assumption. Qed.

Lemma sublist_In (l1 l2 : list B) (x : B) : sublist l1 l2 -> In x l1 -> In x l2.
Proof.
  induction 1; simpl; [tauto| |]; intros Hin.
  - destruct Hin; [left|right]; auto.
  - right; auto.
Qed.

Lemma NoDup_sublist' (l1 l2 : list B) : sublist l1 l2 -> NoDup l2 -> NoDup l1.
Proof.
  induction 1 as [|x l1 l2 Hs IH|x l1 l2 Hs IH]; intros Hnd.
  - constructor.
  - apply NoDup_cons in Hnd as [Hx Hnd]. constructor; [|auto].
    intros Hin. apply Hx. apply list_elem_of_In in Hin. apply list_elem_of_In.
    eapply sublist_In; eauto.
  - apply NoDup_cons in Hnd as [_ Hnd]. auto.
Qed.

Lemma Forall_sublist' (P : B -> Prop) (l1 l2 : list B) :
  sublist l1 l2 -> Forall P l2 -> Forall P l1.
Proof.
  intros Hs H. apply List.Forall_forall. intros x Hx.
  eapply List.Forall_forall; [exact H|]. eapply sublist_In; eauto.
Qed.

Lemma filter_sublist' (p : A -> bool) (l : list A) : sublist (filter (fun x => p x) l) l.
Proof.
  induction l as [|x l IH]; [constructor|].
  rewrite filter_cons. destruct (p x);
    [rewrite decide_True by exact I | rewrite decide_False by (intros [])].
  - now apply sublist_skip.
  - now apply sublist_cons.
Qed.

End SublistFacts.

Module TimerInvariant.
Import Timers TimerFacts.

(** The shim's IDs: [timerId] is never positive, every queued ID lies in
    [[timerId, 0)], and no ID is queued twice in one queue. *)
Definition ids_ok (tid : Z) (l : list timer) : Prop :=
  Forall (fun i => tid <= i < 0) (map t_id l) /\ NoDup (map t_id l).

Definition inv (s : state) : Prop :=
  timerId s <= 0 /\ ids_ok (timerId s) (intervalCallbacks s) /\ ids_ok (timerId s) (timeoutCallbacks s).

Lemma ids_ok_sublist (tid : Z) (l1 l2 : list timer) :
  sublist l1 l2 -> ids_ok tid l2 -> ids_ok tid l1.
Proof.
  intros Hs [Hf Hn]. pose proof (sublist_map_In t_id _ _ Hs) as Hm.
  split; [eapply Forall_sublist'|eapply NoDup_sublist']; eauto.
Qed.

Lemma ids_ok_push (tid : Z) (l : list timer) (st d : Q) (f : nat) :
  tid <= 0 -> ids_ok tid l -> ids_ok (tid - 1) (l ++ [mkTimer (tid - 1) st d f]).
Proof.
  intros Ht [Hf Hn]. unfold ids_ok. rewrite List.map_app. simpl. split.
  - apply Forall_app. split; [|constructor; [cbv beta; lia|constructor]].
    eapply Forall_impl; [exact Hf|]. intros i Hi; cbv beta in *; lia.
  - apply NoDup_app. split; [exact Hn|]. split.
    + intros i Hi Hi'. apply list_elem_of_In in Hi. apply list_elem_of_In in Hi'.
      destruct Hi' as [<-|[]]. eapply List.Forall_forall in Hf; [|exact Hi]. lia.
    + apply NoDup_singleton.
Qed.

Lemma ids_ok_weaken (tid tid' : Z) (l : list timer) :
  tid' <= tid -> ids_ok tid l -> ids_ok tid' l.
Proof.
  intros H [Hf Hn]. split; [|exact Hn].
  eapply Forall_impl; [exact Hf|]. intros i Hi; cbv beta in *; lia.
Qed.

Lemma ids_ok_intervals_pass (tid : Z) (ct : Q) (l : list timer) :
  ids_ok tid l -> ids_ok tid (fst (intervals_pass ct l)).
Proof. unfold ids_ok. now rewrite intervals_pass_ids. Qed.

Lemma ids_ok_timeouts_pass (tid : Z) (ct : Q) (l : list timer) :
  ids_ok tid l -> ids_ok tid (fst (timeouts_pass ct l)).
Proof. apply ids_ok_sublist, timeouts_pass_sublist. Qed.

Lemma inv_callIntervalCallbacks (ct : Q) (s : state) :
  inv s -> inv (callIntervalCallbacks ct s).
Proof.
  unfold callIntervalCallbacks. intros (H0 & H1 & H2).
  pose proof (ids_ok_intervals_pass _ ct _ H1) as H1'.
  destruct (intervals_pass ct (intervalCallbacks s)). unfold inv; simpl in *. tauto.
Qed.

Lemma inv_callTimeoutCallbacks (ct : Q) (s : state) :
  inv s -> inv (callTimeoutCallbacks ct s).
Proof.
  unfold callTimeoutCallbacks. intros (H0 & H1 & H2).
  pose proof (ids_ok_timeouts_pass _ ct _ H2) as H2'.
  destruct (timeouts_pass ct (timeoutCallbacks s)). unfold inv; simpl in *. tauto.
Qed.

Lemma inv_step (s : state) (o : op) : inv s -> inv (step s o).
Proof.
  intros Hs. pose proof Hs as (H0 & H1 & H2). destruct o as [fn d|fn d|id|id|fi|t]; simpl.
  - destruct fn, d; simpl; try exact Hs.
    unfold inv; simpl. split; [lia|split].
    + apply ids_ok_push; assumption.
    + eapply ids_ok_weaken; [|eassumption]; lia.
  - destruct fn, d; simpl; try exact Hs;
    unfold inv; simpl; (split; [lia|split]);
    try (apply ids_ok_push; assumption); eapply ids_ok_weaken; try eassumption; lia.
  - unfold clearInterval. destruct (id =? 0), (0 <=? id); try exact Hs; simpl;
    unfold inv; simpl; (split; [exact H0|split]); [eapply ids_ok_sublist; [apply filter_sublist'|exact H1]|exact H2].
  - unfold clearTimeout. destruct (id =? 0), (0 <=? id); try exact Hs; simpl;
    unfold inv; simpl; (split; [exact H0|split]); [exact H1|eapply ids_ok_sublist; [apply filter_sublist'|exact H2]].
  - unfold tick. apply inv_callTimeoutCallbacks, inv_callIntervalCallbacks. exact Hs.
  - apply inv_callIntervalCallbacks, inv_callTimeoutCallbacks. exact Hs.
Qed.

Lemma inv_run (ops : list op) : inv (run ops).
Proof.
  unfold run. assert (H : inv init_state) by (unfold inv, ids_ok; simpl; repeat split; try lia; constructor).
  revert H. generalize init_state. induction ops as [|o ops IH]; intros s Hs; simpl.
  - exact Hs.
  - apply IH, inv_step, Hs.
Qed.

End TimerInvariant.

Module TimerIds.
Import Timers TimerInvariant.

Lemma filter_keep_all (id : Z) (l : list timer) :
  (forall t, In t l -> t_id t <> id) -> filter (fun t => negb (t_id t =? id)) l = l.
Proof.
  induction l as [|t l IH]; intros H; [reflexivity|].
  rewrite filter_cons. assert (Ht : t_id t <> id) by (apply H; left; reflexivity).
  apply Z.eqb_neq in Ht. rewrite Ht, decide_True by exact I.
  f_equal. apply IH. intros t' Ht'. apply H. right. exact Ht'.
Qed.

(** Filtering out an ID held once removes exactly its entry. *)
Lemma filter_remove_unique (id : Z) (l : list timer) (t : timer) :
  NoDup (map t_id l) -> In t l -> t_id t = id ->
  exists l1 l2, l = l1 ++ t :: l2 /\ filter (fun t => negb (t_id t =? id)) l = l1 ++ l2.
Proof.
  intros Hnd Hin Hid. destruct (in_split t l Hin) as (l1 & l2 & ->).
  exists l1, l2. split; [reflexivity|].
  rewrite List.map_app in Hnd. simpl in Hnd.
  apply NoDup_app in Hnd as (_ & Hdis & Hnd2). apply NoDup_cons in Hnd2 as [Hn2 _].
  rewrite filter_app, filter_cons, Hid, Z.eqb_refl, decide_False by (intros []).
  rewrite !filter_keep_all; [reflexivity| |].
  - intros t' Ht' Heq. apply Hn2. apply list_elem_of_In.
    rewrite Hid, <- Heq. apply in_map. exact Ht'.
  - intros t' Ht' Heq. apply (Hdis (t_id t')).
    + apply list_elem_of_In, in_map, Ht'.
    + apply list_elem_of_In. left. congruence.
Qed.

Lemma set_timeouts_same (s : state) : set_timeouts s (timeoutCallbacks s) = s.
Proof. destruct s; reflexivity. Qed.

Lemma set_intervals_same (s : state) : set_intervals s (intervalCallbacks s) = s.
Proof. destruct s; reflexivity. Qed.

(** Clearing a negative ID from a queue whose IDs are distinct: either the
    queue holds one entry with that ID and exactly it is removed, or it
    holds none and the queue is unchanged. *)
Lemma remove_cases (id : Z) (l : list timer) :
  NoDup (map t_id l) ->
  (exists l1 t l2, l = l1 ++ t :: l2 /\ t_id t = id /\
     filter (fun t => negb (t_id t =? id)) l = l1 ++ l2) \/
  ((forall t, In t l -> t_id t <> id) /\ filter (fun t => negb (t_id t =? id)) l = l).
Proof.
  intros Hnd. destruct (in_dec Z.eq_dec id (map t_id l)) as [Hin|Hout].
  - apply in_map_iff in Hin as (t & Ht & Hin).
    destruct (filter_remove_unique id l t Hnd Hin Ht) as (l1 & l2 & E1 & E2).
    left. exists l1, t, l2. auto.
  - right. assert (H : forall t, In t l -> t_id t <> id).
    { intros t Ht Heq. apply Hout. rewrite <- Heq. apply in_map, Ht. }
    split; [exact H|]. apply filter_keep_all, H.
Qed.

(** C3 (as the code has it): in any state the shim reaches, [setTimeout]
    and [setInterval] with a function and a numeric delay return a
    negative ID and append [(id, currentTime, delay, fn)] to their queue;
    [clearTimeout] and [clearInterval] with a positive ID call the
    preserved real function and change nothing else, with the ID 0 they do
    nothing at all, and with a negative ID they remove exactly the entry of
    the queue with that ID (the queue is unchanged if there is none). *)
Theorem shim_timer_ids (ops : list op) :
  let s := run ops in
  (forall f d, exists id, id < 0 /\
     setTimeout (Fun f) (DNum d) s =
       (set_timeouts (set_timerId s id) (timeoutCallbacks s ++ [mkTimer id (currentTime s) d f]), Some id)) /\
  (forall f d, exists id, id < 0 /\
     setInterval (Fun f) (DNum d) s =
       (set_intervals (set_timerId s id) (intervalCallbacks s ++ [mkTimer id (currentTime s) d f]), Some id)) /\
  (forall id, 0 < id -> clearTimeout id s = (s, RealClear id) /\ clearInterval id s = (s, RealClear id)) /\
  (clearTimeout 0 s = (s, NoCall) /\ clearInterval 0 s = (s, NoCall)) /\
  (forall id, id < 0 ->
     ((exists l1 t l2, timeoutCallbacks s = l1 ++ t :: l2 /\ t_id t = id /\
         clearTimeout id s = (set_timeouts s (l1 ++ l2), NoCall)) \/
      ((forall t, In t (timeoutCallbacks s) -> t_id t <> id) /\ clearTimeout id s = (s, NoCall))) /\
     ((exists l1 t l2, intervalCallbacks s = l1 ++ t :: l2 /\ t_id t = id /\
         clearInterval id s = (set_intervals s (l1 ++ l2), NoCall)) \/
      ((forall t, In t (intervalCallbacks s) -> t_id t <> id) /\ clearInterval id s = (s, NoCall)))).
Proof.
  intros s. pose proof (inv_run ops) as (H0 & [_ Hi] & [_ Ht]). fold s in H0, Hi, Ht.
  split; [|split; [|split; [|split]]].
  - intros f d. exists (timerId s - 1). split; [lia|reflexivity].
  - intros f d. exists (timerId s - 1). split; [lia|reflexivity].
  - intros id Hid. unfold clearTimeout, clearInterval.
    replace (id =? 0) with false by lia. replace (0 <=? id) with true by lia. auto.
  - split; reflexivity.
  - intros id Hid. unfold clearTimeout, clearInterval.
    replace (id =? 0) with false by lia. replace (0 <=? id) with false by lia. split.
    + destruct (remove_cases id _ Ht) as [(l1 & t & l2 & E1 & E2 & E3)|(E1 & E2)].
      * left. exists l1, t, l2. rewrite E3. auto.
      * right. rewrite E2, set_timeouts_same. auto.
    + destruct (remove_cases id _ Hi) as [(l1 & t & l2 & E1 & E2 & E3)|(E1 & E2)].
      * left. exists l1, t, l2. rewrite E3. auto.
      * right. rewrite E2, set_intervals_same. auto.
Qed.

Lemma shim_timer_ids_witness :
  (0 < 3) /\
  clearTimeout 3 (run [OpSetTimeout (Fun 1%nat) (DNum 5)]) =
    (run [OpSetTimeout (Fun 1%nat) (DNum 5)], RealClear 3).
Proof.
  split; [lia|].
  apply (proj1 (proj1 (proj2 (proj2 (shim_timer_ids [OpSetTimeout (Fun 1%nat) (DNum 5)]))) 3 ltac:(lia))).
Defined.

(** C3 (counterexample): the ID 0 is not delegated to the real
    [clearTimeout]: the call returns before any other test. *)
Lemma clearTimeout_zero_not_delegated :
  snd (clearTimeout 0 init_state) <> RealClear 0.
Proof. simpl. discriminate. Qed.

End TimerIds.

Module CaptureCount.
Import JsNumber Capture.

(** C1 (failing input): a screencast of 580 ms at 50 fps with no frame
    count. [startScreencast] derives the frame count as
    [Math.floor(580 / 1000 * 50)] in doubles, which is 28 because the
    double [580 / 1000 * 50] is just below 29, while
    [floor(580 * 50 / 1000)] is 29. The capture loop started from that
    configuration with [startTime] 0, every tick resolving and every
    capture succeeding, calls [captureFrame] 28 times and then notifies
    [screencastCompleted]. *)
Theorem durationToFrameCount_580_50 :
  Page.startScreencast (Page.mkOptions (Some 50%float) None (Some 580%float) None) =
    Ok (Page.mkInjected (Some 50%float) 0%float (Some 580%float) (Some (Int 28))) /\
  (580 * 50) / 1000 = 29 /\
  start 40 (mkConfig 50%float 0%float 580%float (Int 28)) (mkEnv (fun _ => true) (fun _ => true)) =
    Ok (repeat CaptureFrame 28 ++ [ScreencastCompleted]).
Proof. split; [|split]; vm_compute; reflexivity. Qed.

End CaptureCount.

Module ConfigErrors.
Import JsNumber Capture Synth.

(** [isNaN(x) || x <= 0] is the negation of [x > 0]. *)
Lemma invalid_iff_not_positive (x : float) :
  isNaN x || le x 0%float = negb (is_positive x).
Proof.
  unfold isNaN, le, is_positive. change (Prim2SF 0%float) with (S754_zero false).
  destruct (Prim2SF x) as [s|s| |s m e]; try destruct s; reflexivity.
Qed.

Lemma num_invalid_iff_not_positive (n : num) :
  num_isNaN n || num_le0 n = negb (num_is_positive n).
Proof.
  destruct n as [z|f]; simpl.
  - destruct (z <=? 0) eqn:E; destruct (0 <? z) eqn:E'; simpl; try reflexivity; lia.
  - apply invalid_iff_not_positive.
Qed.

(** A finite double equal to an odd integer is not [% 2 === 0]. *)
Lemma odd_not_rem2 (x : float) (k : Z) :
  (toQ x == inject_Z (2 * k + 1))%Q -> rem2_is_zero x = false.
Proof.
  unfold toQ, rem2_is_zero. destruct (Prim2SF x) as [s|s| |s m e]; intros H;
    try reflexivity; try (unfold Qeq in H; simpl in H; lia).
  assert (Hv : (if s then Z.neg m else Z.pos m) = Z.pos m \/
               (if s then Z.neg m else Z.pos m) = - Z.pos m) by (destruct s; auto).
  destruct (1 <=? e) eqn:E1.
  - exfalso. apply Z.leb_le in E1. replace (0 <=? e) with true in H by lia.
    unfold Qeq in H; simpl in H.
    assert (Hp : 2 ^ e = 2 * 2 ^ (e - 1)) by (rewrite <- Z.pow_succ_r by lia; f_equal; lia).
    rewrite Hp in H. destruct Hv as [Hv|Hv]; rewrite Hv in H.
    + assert (Z.pos m * (2 * 2 ^ (e - 1)) = 2 * (Z.pos m * 2 ^ (e - 1))) by ring. lia.
    + assert (- Z.pos m * (2 * 2 ^ (e - 1)) = 2 * (- (Z.pos m * 2 ^ (e - 1)))) by ring. lia.
  - apply Z.leb_gt in E1. apply Z.eqb_neq. intros Hm.
    assert (HP : 0 < 2 ^ (- e)) by (apply Z.pow_pos_nonneg; lia).
    assert (H2 : 2 ^ (1 - e) = 2 * 2 ^ (- e)) by (rewrite <- Z.pow_succ_r by lia; f_equal; lia).
    rewrite H2 in Hm.
    pose proof (Z.div_mod (Z.pos m) (2 * 2 ^ (- e)) ltac:(lia)) as Hdm.
    rewrite Hm, Z.add_0_r in Hdm. set (j := Z.pos m / (2 * 2 ^ (- e))) in Hdm.
    destruct (0 <=? e) eqn:E0.
    + apply Z.leb_le in E0. assert (e = 0) by lia. subst e.
      unfold Qeq in H; simpl in H. simpl in Hdm.
      destruct Hv as [Hv|Hv]; rewrite Hv in H; lia.
    + unfold Qeq in H; simpl in H. rewrite Z2Pos.id in H by exact HP.
      set (P := 2 ^ (- e)) in *.
      assert (Hz : ((if s then Z.neg m else Z.pos m) - (2 * k + 1) * P) = 0) by lia.
      destruct Hv as [Hv|Hv]; rewrite Hv, Hdm in Hz.
      * assert (Hz' : P * (2 * j - (2 * k + 1)) = 0) by (rewrite <- Hz; ring).
        apply Z.mul_eq_0 in Hz' as [Hz'|Hz']; lia.
      * assert (Hz' : P * (- (2 * j) - (2 * k + 1)) = 0) by (rewrite <- Hz; ring).
        apply Z.mul_eq_0 in Hz' as [Hz'|Hz']; lia.
Qed.

End ConfigErrors.

Module ConfigClaims.
Import JsNumber Capture Synth ConfigErrors.

(** C7 (as the code has it): [start()] throws, before any frame, exactly
    when the configured fps or duration is not [> 0] (NaN, zero or
    negative) or the frame count is not [> 0]; an infinite value passes.
    The [Synthesizer] constructor throws on a non-finite or odd width or
    height, a non-finite duration, or a format outside [mp4] and [webm]. *)
Theorem config_errors (fuel : nat) (c : config) (e : env) (isVideoChunk : bool) (o : options) :
  ((exists m, start fuel c e = Throw m) <->
     is_positive (fps c) = false \/ is_positive (duration c) = false \/
     num_is_positive (frameCount c) = false) /\
  (isFinite (so_width o) = false \/ (exists k, toQ (so_width o) == inject_Z (2 * k + 1))%Q \/
   isFinite (so_height o) = false \/ (exists k, toQ (so_height o) == inject_Z (2 * k + 1))%Q \/
   isFinite (so_duration o) = false \/
   (exists f, so_format o = Some f /\ f ∉ SUPPORT_FORMAT) ->
   exists m, constructor_checks isVideoChunk o = Throw m).
Proof.
  split.
  - unfold start, checkConfig.
    rewrite !invalid_iff_not_positive, num_invalid_iff_not_positive.
    destruct (is_positive (fps c)), (is_positive (duration c)), (num_is_positive (frameCount c));
      simpl; split; intros H;
      try (eexists; reflexivity); try (destruct H; discriminate);
      try (destruct H as [H|[H|H]]; discriminate); auto.
  - intros H. unfold constructor_checks.
    destruct (isFinite (so_width o)) eqn:Ew; [|eexists; reflexivity].
    destruct (rem2_is_zero (so_width o)) eqn:Rw; [|eexists; reflexivity]. simpl.
    destruct (isFinite (so_height o)) eqn:Eh; [|eexists; reflexivity].
    destruct (rem2_is_zero (so_height o)) eqn:Rh; [|eexists; reflexivity]. simpl.
    destruct (isFinite (so_duration o)) eqn:Ed; [|eexists; reflexivity]. simpl.
    destruct (bool_decide (is_Some (so_outputPath o)) || isVideoChunk); [|eexists; reflexivity].
    simpl. destruct (match so_fps o with None => true | Some f => isFinite f end);
      [|eexists; reflexivity]. simpl.
    destruct H as [H|[[k H]|[H|[[k H]|[H|(f & Hf & Hn)]]]]];
      try congruence; try (apply odd_not_rem2 in H; congruence).
    rewrite Hf, bool_decide_eq_false_2 by exact Hn. eexists; reflexivity.
Qed.

Lemma config_errors_witness :
  (is_positive 0%float = false /\
   exists m, start 1 (mkConfig 30%float 0%float 0%float (Int 30)) (mkEnv (fun _ => true) (fun _ => true)) = Throw m) /\
  ((exists k, toQ 3%float == inject_Z (2 * k + 1))%Q /\
   exists m, constructor_checks false (mkSynthOptions 3%float 2%float 1%float (Some "out.mp4") None (Some "mp4")) = Throw m).
Proof.
  split.
  - split; [reflexivity|].
    apply (proj1 (config_errors 1 (mkConfig 30%float 0%float 0%float (Int 30)) (mkEnv (fun _ => true) (fun _ => true))
                    false (mkSynthOptions 3%float 2%float 1%float (Some "out.mp4") None (Some "mp4")))).
    right; left; reflexivity.
  - assert (Hk : (exists k, toQ 3%float == inject_Z (2 * k + 1))%Q) by (exists 1; vm_compute; reflexivity).
    split; [exact Hk|].
    apply (proj2 (config_errors 1 (mkConfig 30%float 0%float 0%float (Int 30)) (mkEnv (fun _ => true) (fun _ => true))
                    false (mkSynthOptions 3%float 2%float 1%float (Some "out.mp4") None (Some "mp4")))).
    right; left; exact Hk.
Defined.

(** C7 (counterexample): a capture configured with an infinite duration
    and frame count does not throw: it captures frames (here three ticks'
    worth) and never completes. *)
Lemma checkConfig_accepts_infinity :
  start 3 (mkConfig 30%float 0%float infinity (Dbl infinity)) (mkEnv (fun _ => true) (fun _ => true)) =
    Ok [CaptureFrame; CaptureFrame; CaptureFrame].
Proof. vm_compute. reflexivity. Qed.

End ConfigClaims.

Module DurationUnits.
Import JsNumber Page.

(** For finite [frameCount], [fps] and [startTime],
    [frameCountToDuration] returns [frameCount / fps] with no factor 1000;
    [durationToFrameCount] of that value is
    [Math.floor(frameCount / fps / 1000 * fps)] computed in doubles; and
    [startScreencast] given a frame count and no duration injects the
    duration [frameCount / fps] (seconds, where milliseconds are
    expected). *)
Lemma frameCount_duration_units (fc fps st : float) :
  isFinite fc = true -> isFinite fps = true -> isFinite st = true ->
  Util.frameCountToDuration fc fps = Ok (fc / fps)%float /\
  Util.durationToFrameCount (fc / fps)%float fps =
    (if isFinite (fc / fps)%float then Ok (Math_floor ((fc / fps) / 1000 * fps)%float)
     else Throw "duration must be number") /\
  startScreencast (mkOptions (Some fps) (Some st) None (Some fc)) =
    Ok (mkInjected (Some fps) st (Some (fc / fps)%float) (Some (Dbl fc))).
Proof.
  intros Hfc Hfps Hst.
  assert (H1 : Util.frameCountToDuration fc fps = Ok (fc / fps)%float)
    by (unfold Util.frameCountToDuration; rewrite Hfc, Hfps; reflexivity).
  split; [exact H1|]. split.
  - unfold Util.durationToFrameCount. rewrite Hfps.
    destruct (isFinite (fc / fps)%float); reflexivity.
  - unfold startScreencast; simpl. rewrite Hfps, Hst, Hfc. simpl. rewrite H1. reflexivity.
Qed.

(** C10 (failing input): 1000 frames at 13 fps. [frameCountToDuration]
    gives the double [1000 / 13] (no factor 1000), and
    [durationToFrameCount] of it computes [Math.floor(1000 / 13 / 1000 * 13)]
    in doubles, which is 0 because the double product is just below 1,
    while [floor(1000 / 1000)] is 1. [startScreencast] with 300 frames at
    30 fps and no duration injects the duration 10, where 300 frames at
    30 fps last 10000 ms. *)
Theorem roundtrip_1000_13 :
  Util.frameCountToDuration 1000%float 13%float = Ok (1000 / 13)%float /\
  Util.durationToFrameCount (1000 / 13)%float 13%float = Ok (Int 0) /\
  1000 / 1000 = 1 /\
  startScreencast (mkOptions (Some 30%float) None None (Some 300%float)) =
    Ok (mkInjected (Some 30%float) 0%float (Some 10%float) (Some (Dbl 300%float))).
Proof. split; [|split; [|split]]; vm_compute; reflexivity. Qed.

End DurationUnits.

Module ChunkDuration.
Import Chunks.

(** A chunk with no rendered frame contributes [duration -
    transitionDuration]. *)
Lemma getOutputDuration_unrendered (c : chunk) :
  c_frameCount c = 0 -> (getOutputDuration c == c_duration c - transitionDuration c)%Q.
Proof.
  intros H. unfold getOutputDuration, synth_getOutputDuration. rewrite H, orb_true_r.
  destruct (Qeq_bool (c_duration c) 0) eqn:E; [|reflexivity].
  apply Qeq_bool_eq in E. rewrite E. reflexivity.
Qed.

Lemma with_transition_frameCount (c : chunk) (t : option (string * option Q)) :
  c_frameCount (with_transition c t) = c_frameCount c.
Proof. destruct t as [[id d]|]; reflexivity. Qed.

Lemma input_all_duration (s0 s : csynth) (l : list (chunk * option (string * option Q))) :
  (forall c t, In (c, t) l -> c_frameCount c = 0) ->
  input_all s0 l = Ok s ->
  s_chunks s = s_chunks s0 ++ map (fun '(c, t) => with_transition c t) l /\
  (s_duration s == s_duration s0 +
     fold_right (fun c acc => c_duration c - transitionDuration c + acc) 0
       (map (fun '(c, t) => with_transition c t) l))%Q.
Proof.
  revert s0. induction l as [|[c t] l IH]; intros s0 Hfc Hin; simpl in Hin.
  - injection Hin as <-. simpl. rewrite app_nil_r. split; [reflexivity|ring].
  - unfold input in Hin.
    destruct (negb (Qeq_bool (c_width c) (s_width s0))); [discriminate|].
    destruct (negb (Qeq_bool (c_height c) (s_height s0))); [discriminate|].
    destruct (negb (Qeq_bool (c_fps c) (s_fps s0))); [discriminate|].
    destruct (transition_check t); [|discriminate].
    destruct (IH _ (fun c' t' H => Hfc c' t' (or_intror H)) Hin) as [H1 H2]. simpl in H1, H2.
    split.
    + rewrite H1, <- app_assoc. reflexivity.
    + rewrite H2. simpl.
      rewrite (getOutputDuration_unrendered (with_transition c t)).
      * ring.
      * rewrite with_transition_frameCount. apply (Hfc c t). left. reflexivity.
Qed.

(** C4: inputting chunks none of which has rendered a frame into a fresh
    [ChunkSynthesizer] (duration 0) appends them, each with its
    transition, in order, and sets the duration to the sum over them of
    [duration - transition.duration] (0 for a chunk without transition). *)
Theorem input_total_duration (s0 s : csynth) (l : list (chunk * option (string * option Q))) :
  s_duration s0 = 0%Q ->
  (forall c t, In (c, t) l -> c_frameCount c = 0) ->
  input_all s0 l = Ok s ->
  s_chunks s = s_chunks s0 ++ map (fun '(c, t) => with_transition c t) l /\
  (s_duration s ==
     fold_right (fun c acc => c_duration c - transitionDuration c + acc) 0
       (map (fun '(c, t) => with_transition c t) l))%Q.
Proof.
  intros H0 Hfc Hin. destruct (input_all_duration s0 s l Hfc Hin) as [H1 H2].
  split; [exact H1|]. rewrite H2, H0. ring.
Qed.

Lemma input_total_duration_witness :
  exists s,
    s_duration (mkCsynth 1280 720 30 0 []) = 0%Q /\
    (forall c t, In (c, t) [(mkChunk 1280 720 30 5000 None 0 false [], Some ("fade"%string, @None Q));
                            (mkChunk 1280 720 30 3000 None 0 false [], None)] -> c_frameCount c = 0) /\
    input_all (mkCsynth 1280 720 30 0 [])
      [(mkChunk 1280 720 30 5000 None 0 false [], Some ("fade"%string, @None Q));
       (mkChunk 1280 720 30 3000 None 0 false [], None)] = Ok s /\
    (s_chunks s = s_chunks (mkCsynth 1280 720 30 0 []) ++
       map (fun '(c, t) => with_transition c t)
         [(mkChunk 1280 720 30 5000 None 0 false [], Some ("fade"%string, @None Q));
          (mkChunk 1280 720 30 3000 None 0 false [], None)] /\
     (s_duration s ==
        fold_right (fun c acc => c_duration c - transitionDuration c + acc) 0
          (map (fun '(c, t) => with_transition c t)
             [(mkChunk 1280 720 30 5000 None 0 false [], Some ("fade"%string, @None Q));
              (mkChunk 1280 720 30 3000 None 0 false [], None)]))%Q).
Proof.
  exists (match input_all (mkCsynth 1280 720 30 0 [])
            [(mkChunk 1280 720 30 5000 None 0 false [], Some ("fade"%string, @None Q));
             (mkChunk 1280 720 30 3000 None 0 false [], None)] with
          | Ok s => s | Throw _ => mkCsynth 1280 720 30 0 [] end).
  assert (Hfc : forall c t, In (c, t) [(mkChunk 1280 720 30 5000 None 0 false [], Some ("fade"%string, @None Q));
                            (mkChunk 1280 720 30 3000 None 0 false [], None)] -> c_frameCount c = 0).
  { intros c t [H|[H|[]]]; injection H as <- _; reflexivity. }
  assert (Hin : input_all (mkCsynth 1280 720 30 0 [])
      [(mkChunk 1280 720 30 5000 None 0 false [], Some ("fade"%string, @None Q));
       (mkChunk 1280 720 30 3000 None 0 false [], None)] =
      Ok (match input_all (mkCsynth 1280 720 30 0 [])
            [(mkChunk 1280 720 30 5000 None 0 false [], Some ("fade"%string, @None Q));
             (mkChunk 1280 720 30 3000 None 0 false [], None)] with
          | Ok s => s | Throw _ => mkCsynth 1280 720 30 0 [] end)) by (vm_compute; reflexivity).
  split; [reflexivity|]. split; [exact Hfc|]. split; [exact Hin|].
  exact (input_total_duration (mkCsynth 1280 720 30 0 []) _ _ eq_refl Hfc Hin).
Defined.

End ChunkDuration.

Module ChunkAudio.
Import Chunks ChunkDuration.

Lemma start_loop_cons (off : Q) (i : nat) (c : chunk) (cs : list chunk) :
  start_loop off i (c :: cs) =
    (map (fun a => (i, shift off (c_duration c) a)) (c_audios c)
       ++ fst (start_loop (off + getOutputDuration c)%Q (S i) cs),
     (if c_completed c then [] else [(i, off)])
       ++ snd (start_loop (off + getOutputDuration c)%Q (S i) cs)).
Proof. simpl. destruct (start_loop (off + getOutputDuration c)%Q (S i) cs); reflexivity. Qed.

(** The audios [start()] adds from the chunks: those of the chunk at
    index [j] moved by the running offset, the sum of the output durations
    of the chunks before it. *)
Lemma start_loop_own (off : Q) (i : nat) (cs : list chunk) :
  fst (start_loop off i cs) =
    concat (imap (fun j c =>
      map (fun a => (i + j, shift (fold_left Qplus (map getOutputDuration (take j cs)) off)
                                  (c_duration c) a))%nat (c_audios c)) cs).
Proof.
  revert off i. induction cs as [|c cs IH]; intros off i; [reflexivity|].
  rewrite start_loop_cons, imap_cons. simpl. rewrite Nat.add_0_r. f_equal.
  rewrite IH. f_equal. apply imap_ext. intros j c' _. simpl.
  rewrite Nat.add_succ_r. reflexivity.
Qed.

Lemma render_offset_below (off : Q) (i j : nat) (cs : list chunk) :
  (j < i)%nat -> render_offset j (snd (start_loop off i cs)) = None.
Proof.
  revert off i. induction cs as [|c cs IH]; intros off i Hj; [reflexivity|].
  rewrite start_loop_cons. simpl. destruct (c_completed c); simpl.
  - apply IH. lia.
  - replace (Nat.eqb j i) with false by (symmetry; apply Nat.eqb_neq; lia). apply IH. lia.
Qed.

Lemma render_offset_cons_neq (i j : nat) (o : Q) (r : list (nat * Q)) :
  j <> i -> render_offset j ((i, o) :: r) = render_offset j r.
Proof. intros H. simpl. apply Nat.eqb_neq in H. rewrite H. reflexivity. Qed.

(** [renderChunk] is called once for each chunk not yet completed, with
    the running offset of that chunk. *)
Lemma render_offset_spec (off : Q) (i k : nat) (cs : list chunk) :
  render_offset (i + k) (snd (start_loop off i cs)) =
    match cs !! k with
    | Some c => if c_completed c then None
                else Some (fold_left Qplus (map getOutputDuration (take k cs)) off)
    | None => None
    end.
Proof.
  revert off i k. induction cs as [|c cs IH]; intros off i k; [reflexivity|].
  rewrite start_loop_cons. destruct k as [|k].
  - simpl. rewrite Nat.add_0_r. destruct (c_completed c); simpl.
    + apply render_offset_below. lia.
    + rewrite Nat.eqb_refl. reflexivity.
  - replace (i + S k)%nat with (S i + k)%nat by lia.
    destruct (c_completed c); cbn [app snd].
    + exact (IH _ (S i) k).
    + rewrite render_offset_cons_neq by lia. exact (IH _ (S i) k).
Qed.

Lemma omap_ext' {X Y} (f g : X -> option Y) (l : list X) :
  (forall x, f x = g x) -> omap f l = omap g l.
Proof.
  intros H. induction l as [|x l IH]; [reflexivity|].
  simpl. rewrite H. destruct (g x); [f_equal|]; exact IH.
Qed.

Lemma fold_left_Qplus_unrendered (l : list chunk) (a : Q) :
  (forall c, In c l -> c_frameCount c = 0) ->
  (fold_left Qplus (map getOutputDuration l) a ==
     a + fold_right (fun c acc => c_duration c - transitionDuration c + acc) 0 l)%Q.
Proof.
  revert a. induction l as [|c l IH]; intros a H; simpl.
  - ring.
  - rewrite IH by (intros c' Hc'; apply H; right; exact Hc').
    rewrite (getOutputDuration_unrendered c) by (apply H; left; reflexivity). ring.
Qed.

Lemma In_take {X} (x : X) (n : nat) (l : list X) : In x (take n l) -> In x l.
Proof.
  revert n. induction l as [|y l IH]; intros [|n]; simpl; try tauto.
  intros [H|H]; [left; exact H|right; eapply IH; exact H].
Qed.

(** [start()] adds, first, each audio already on
    the chunk at index [i] and then each audio a chunk not yet completed
    emits while it renders, in arrival order, with [startTime] (default 0)
    and [endTime] (default the chunk's duration) moved by the sum of
    [getOutputDuration()] over the chunks before [i]; an emission of a chunk
    completed before [start()] is not listened to. That sum is the sum of
    [duration - transition.duration] when no chunk has a rendered frame. *)
Theorem start_audio_offsets (cs : list chunk) (arrivals : list (nat * audio)) :
  start cs arrivals =
    concat (imap (fun i c =>
      map (fun a => (i, shift (fold_left Qplus (map getOutputDuration (take i cs)) 0%Q)
                              (c_duration c) a)) (c_audios c)) cs)
    ++ omap (fun '(i, a) =>
         match cs !! i with
         | Some c =>
             if c_completed c then None
             else Some (i, shift (fold_left Qplus (map getOutputDuration (take i cs)) 0%Q)
                                 (c_duration c) a)
         | None => None
         end) arrivals /\
  ((forall c, In c cs -> c_frameCount c = 0) ->
   forall i, (fold_left Qplus (map getOutputDuration (take i cs)) 0 ==
              fold_right (fun c acc => c_duration c - transitionDuration c + acc) 0 (take i cs))%Q).
Proof.
  split.
  - unfold start. pose proof (start_loop_own 0 0 cs) as Ho.
    pose proof (fun k => render_offset_spec 0 0 k cs) as Hr.
    destruct (start_loop 0 0 cs) as [own renders]. simpl in Ho, Hr. rewrite Ho. f_equal.
    apply omap_ext'. intros [i a]. rewrite Hr.
    destruct (cs !! i) as [c|]; [|reflexivity].
    destruct (c_completed c); reflexivity.
  - intros H i. rewrite fold_left_Qplus_unrendered; [ring|].
    intros c Hc. apply H. eapply In_take. exact Hc.
Qed.

Lemma start_audio_offsets_witness :
  (forall c, In c [mkChunk 1280 720 30 5000 (Some (mkTransition "fade" 500)) 0 false [];
                   mkChunk 1280 720 30 3000 None 0 false [mkAudio None None 1]] -> c_frameCount c = 0) /\
  (fold_left Qplus (map getOutputDuration
     (take 1 [mkChunk 1280 720 30 5000 (Some (mkTransition "fade" 500)) 0 false [];
              mkChunk 1280 720 30 3000 None 0 false [mkAudio None None 1]])) 0 ==
   fold_right (fun c acc => c_duration c - transitionDuration c + acc) 0
     (take 1 [mkChunk 1280 720 30 5000 (Some (mkTransition "fade" 500)) 0 false [];
              mkChunk 1280 720 30 3000 None 0 false [mkAudio None None 1]]))%Q.
Proof.
  assert (H : forall c, In c [mkChunk 1280 720 30 5000 (Some (mkTransition "fade" 500)) 0 false [];
                   mkChunk 1280 720 30 3000 None 0 false [mkAudio None None 1]] -> c_frameCount c = 0).
  { intros c [<-|[<-|[]]]; reflexivity. }
  split; [exact H|].
  exact (proj2 (start_audio_offsets
                  [mkChunk 1280 720 30 5000 (Some (mkTransition "fade" 500)) 0 false [];
                   mkChunk 1280 720 30 3000 None 0 false [mkAudio None None 1]] []) H 1%nat).
Defined.

(** C5 (failing input): a chunk of 1500 ms at 30 fps completed before
    [start()], which has rendered its 45 frames (1500 ms of video), then a
    chunk with an audio at local time 0. [getOutputDuration()] of the first
    chunk is [Math.floor(45 / 30) * 1000] = 1000, so the audio is placed
    at 1000 ms (and ends at 4000 ms), not at [duration -
    transition.duration] = 1500 ms. *)
Theorem start_offset_completed_chunk :
  map (fun '(i, a) => (i, option_map Qred (a_startTime a), option_map Qred (a_endTime a)))
    (start [mkChunk 1280 720 30 1500 None 45 true [];
            mkChunk 1280 720 30 3000 None 0 false [mkAudio (Some 0%Q) None 7]] []) =
    [(1%nat, Some 1000%Q, Some 4000%Q)] /\
  (c_duration (mkChunk 1280 720 30 1500 None 45 true []) -
     transitionDuration (mkChunk 1280 720 30 1500 None 45 true []) == 1500)%Q /\
  (inject_Z 45 / 30 * 1000 == 1500)%Q.
Proof. split; [|split]; vm_compute; reflexivity. Qed.

End ChunkAudio.

Module PayloadFacts.
Import Payload.

(** The header's digits hold no [!], so the delimiter found is the one
    after them. *)
Lemma list_find_delimiter (u : Decimal.uint) (rest : list byte) :
  list_find (fun b => Byte.eqb b x21 = true) (uint_bytes u ++ x21 :: rest) =
    Some (length (uint_bytes u), x21).
Proof. induction u; simpl; try rewrite IHu; reflexivity. Qed.

Lemma lead_digits_uint_bytes (u : Decimal.uint) : lead_digits (uint_bytes u) = u.
Proof. induction u; simpl; rewrite ?IHu; reflexivity. Qed.

(** [parseInt(String(n))] is [n]. *)
Lemma parseInt_dec_bytes (n : N) : parseInt (dec_bytes n) = Some n.
Proof.
  unfold parseInt, dec_bytes. rewrite lead_digits_uint_bytes.
  pose proof (DecimalN.Unsigned.of_to n) as Hn.
  destruct (N.to_uint n) eqn:E; try (rewrite <- Hn; reflexivity).
  simpl in Hn. subst n. discriminate.
Qed.








End PayloadFacts.

Module TimerDispatch.
Import Timers TimerFacts TimerInvariant TimerIds.

Lemma timeouts_pass_kept (ct : Q) (l : list timer) :
  fst (timeouts_pass ct l) = filter (fun t => negb (due ct t)) l.
Proof.
  induction l as [|t l IH]; [reflexivity|].
  simpl. destruct (timeouts_pass ct l) as [l'' posted] eqn:E. simpl in IH.
  rewrite filter_cons. destruct (due ct t) eqn:Hd;
    [rewrite decide_False by (intros [])|rewrite decide_True by exact I]; simpl; now rewrite IH.
Qed.

Lemma intervals_pass_kept (ct : Q) (l : list timer) :
  fst (intervals_pass ct l) =
    map (fun t => if due ct t then mkTimer (t_id t) ct (t_delay t) (t_fn t) else t) l.
Proof.
  induction l as [|t l IH]; [reflexivity|].
  simpl. destruct (intervals_pass ct l) as [l'' posted] eqn:E. simpl in IH.
  destruct (due ct t); simpl; now rewrite IH.
Qed.

Lemma timeouts_dispatch (ct : Q) (s : state) :
  timeoutCallbacks (callTimeoutCallbacks ct s) = filter (fun t => negb (due ct t)) (timeoutCallbacks s) /\
  tasks (callTimeoutCallbacks ct s) =
    tasks s ++ map (fun t => (t_fn t, ct)) (filter (fun t => due ct t) (timeoutCallbacks s)) /\
  intervalCallbacks (callTimeoutCallbacks ct s) = intervalCallbacks s /\
  timerId (callTimeoutCallbacks ct s) = timerId s /\
  currentTime (callTimeoutCallbacks ct s) = currentTime s.
Proof.
  unfold callTimeoutCallbacks.
  pose proof (timeouts_pass_kept ct (timeoutCallbacks s)) as H1.
  pose proof (timeouts_pass_posted ct (timeoutCallbacks s)) as H2.
  destruct (timeouts_pass ct (timeoutCallbacks s)) as [l p]. simpl in *.
  subst l p. auto.
Qed.

Lemma intervals_dispatch (ct : Q) (s : state) :
  intervalCallbacks (callIntervalCallbacks ct s) =
    map (fun t => if due ct t then mkTimer (t_id t) ct (t_delay t) (t_fn t) else t)
        (intervalCallbacks s) /\
  map t_id (intervalCallbacks (callIntervalCallbacks ct s)) = map t_id (intervalCallbacks s) /\
  tasks (callIntervalCallbacks ct s) =
    tasks s ++ map (fun t => (t_fn t, ct)) (filter (fun t => due ct t) (intervalCallbacks s)) /\
  timeoutCallbacks (callIntervalCallbacks ct s) = timeoutCallbacks s /\
  timerId (callIntervalCallbacks ct s) = timerId s /\
  currentTime (callIntervalCallbacks ct s) = currentTime s.
Proof.
  unfold callIntervalCallbacks.
  pose proof (intervals_pass_kept ct (intervalCallbacks s)) as H1.
  pose proof (intervals_pass_posted ct (intervalCallbacks s)) as H2.
  pose proof (intervals_pass_ids ct (intervalCallbacks s)) as H3.
  destruct (intervals_pass ct (intervalCallbacks s)) as [l p]. simpl in *.
  subst l p. repeat split; try reflexivity. rewrite <- H3. reflexivity.
Qed.

(** [_callTimeoutCallbacks(t)] posts one call [fn(t)] per timeout entry due
    at [t] ([timestamp + timeout <= t]), in queue order and after the calls
    already posted, and removes exactly those entries, keeping the others
    in order; the interval queue, the ID counter and the clock are left
    as they are. *)
Theorem callTimeoutCallbacks_effect (ct : Q) (s : state) :
  timeoutCallbacks (callTimeoutCallbacks ct s) = filter (fun t => negb (due ct t)) (timeoutCallbacks s) /\
  tasks (callTimeoutCallbacks ct s) =
    tasks s ++ map (fun t => (t_fn t, ct)) (filter (fun t => due ct t) (timeoutCallbacks s)) /\
  intervalCallbacks (callTimeoutCallbacks ct s) = intervalCallbacks s /\
  timerId (callTimeoutCallbacks ct s) = timerId s /\
  currentTime (callTimeoutCallbacks ct s) = currentTime s.
Proof. exact (timeouts_dispatch ct s). Qed.

(** [_callIntervalCallbacks(t)] removes no entry: it keeps the queue's
    entries and IDs in order, gives each entry due at [t] the timestamp
    [t] and posts its call [fn(t)], in queue order, after the calls
    already posted; the timeout queue, the ID counter and the clock are
    left as they are. *)
Theorem callIntervalCallbacks_effect (ct : Q) (s : state) :
  intervalCallbacks (callIntervalCallbacks ct s) =
    map (fun t => if due ct t then mkTimer (t_id t) ct (t_delay t) (t_fn t) else t)
        (intervalCallbacks s) /\
  map t_id (intervalCallbacks (callIntervalCallbacks ct s)) = map t_id (intervalCallbacks s) /\
  tasks (callIntervalCallbacks ct s) =
    tasks s ++ map (fun t => (t_fn t, ct)) (filter (fun t => due ct t) (intervalCallbacks s)) /\
  timeoutCallbacks (callIntervalCallbacks ct s) = timeoutCallbacks s /\
  timerId (callIntervalCallbacks ct s) = timerId s /\
  currentTime (callIntervalCallbacks ct s) = currentTime s.
Proof. exact (intervals_dispatch ct s). Qed.

(** No ID is held by both queues. *)
Definition disjoint_ids (s : state) : Prop :=
  forall i, In i (map t_id (intervalCallbacks s)) -> In i (map t_id (timeoutCallbacks s)) -> False.

Lemma ids_in_range (tid i : Z) (l : list timer) :
  ids_ok tid l -> In i (map t_id l) -> tid <= i < 0.
Proof. intros [Hf _] Hi. exact (proj1 (List.Forall_forall _ _) Hf i Hi). Qed.

Lemma in_ids_push (i id : Z) (l : list timer) (st d : Q) (f : nat) :
  In i (map t_id (l ++ [mkTimer id st d f])) -> In i (map t_id l) \/ i = id.
Proof.
  rewrite List.map_app, in_app_iff. simpl. intros [H|[H|[]]]; [left|right]; auto.
Qed.

Lemma in_ids_sublist (i : Z) (l1 l2 : list timer) :
  sublist l1 l2 -> In i (map t_id l1) -> In i (map t_id l2).
Proof. intros Hs. apply sublist_In, sublist_map_In, Hs. Qed.

Lemma disjoint_step (s : state) (o : op) : inv s -> disjoint_ids s -> disjoint_ids (step s o).
Proof.
  intros Hinv Hd. pose proof Hinv as (H0 & H1 & H2).
  destruct o as [fn d|fn d|id|id|fi|t]; simpl.
  - destruct fn, d; simpl; try exact Hd.
    intros i Hi Hj. apply in_ids_push in Hi as [Hi| ->]; [exact (Hd i Hi Hj)|].
    pose proof (ids_in_range _ _ _ H2 Hj). lia.
  - destruct fn, d; simpl; try exact Hd;
    intros i Hi Hj; apply in_ids_push in Hj as [Hj| ->]; try exact (Hd i Hi Hj);
    pose proof (ids_in_range _ _ _ H1 Hi); lia.
  - unfold clearInterval. destruct (id =? 0), (0 <=? id); try exact Hd; simpl.
    intros i Hi Hj. apply (Hd i); [|exact Hj].
    eapply in_ids_sublist; [apply filter_sublist'|exact Hi].
  - unfold clearTimeout. destruct (id =? 0), (0 <=? id); try exact Hd; simpl.
    intros i Hi Hj. apply (Hd i); [exact Hi|].
    eapply in_ids_sublist; [apply filter_sublist'|exact Hj].
  - unfold tick. intros i Hi Hj.
    destruct (timeouts_dispatch (currentTime s + fi)
                (callIntervalCallbacks (currentTime s + fi)
                   (mkState (timerId s) (intervalCallbacks s) (timeoutCallbacks s)
                            (currentTime s + fi) (tasks s)))) as (T1 & _ & T3 & _).
    destruct (intervals_dispatch (currentTime s + fi)
                (mkState (timerId s) (intervalCallbacks s) (timeoutCallbacks s)
                         (currentTime s + fi) (tasks s))) as (_ & I2 & _ & I4 & _).
    rewrite T3, I2 in Hi. rewrite T1, I4 in Hj. simpl in Hi, Hj.
    apply (Hd i Hi). eapply in_ids_sublist; [apply filter_sublist'|exact Hj].
  - intros i Hi Hj.
    destruct (timeouts_dispatch t s) as (T1 & _ & T3 & _).
    destruct (intervals_dispatch t (callTimeoutCallbacks t s)) as (_ & I2 & _ & I4 & _).
    rewrite I2, T3 in Hi. rewrite I4, T1 in Hj.
    apply (Hd i Hi). eapply in_ids_sublist; [apply filter_sublist'|exact Hj].
Qed.


Lemma inv_disjoint_run (ops : list op) : inv (run ops) /\ disjoint_ids (run ops).
Proof.
  unfold run.
  assert (H : inv init_state /\ disjoint_ids init_state).
  { split; [unfold inv, ids_ok; simpl; repeat split; try lia; constructor|].
    intros i []. }
  revert H. generalize init_state. induction ops as [|o ops IH]; intros s [Hs Hd]; simpl.
  - split; assumption.
  - apply IH. split; [apply inv_step, Hs|apply disjoint_step; assumption].
Qed.

(** In every state the shim reaches from a fresh context, the queued
    timer IDs of both queues together are distinct and lie in
    [[timerId, 0)], with [timerId <= 0]: the ID the next [setTimeout] or
    [setInterval] returns, [timerId - 1], is held by no queued entry. *)
Theorem run_ids_distinct (ops : list op) :
  timerId (run ops) <= 0 /\
  Forall (fun i => timerId (run ops) <= i < 0)
    (map t_id (intervalCallbacks (run ops) ++ timeoutCallbacks (run ops))) /\
  NoDup (map t_id (intervalCallbacks (run ops) ++ timeoutCallbacks (run ops))).
Proof.
  destruct (inv_disjoint_run ops) as [(H0 & [F1 N1] & [F2 N2]) Hd].
  rewrite List.map_app. split; [exact H0|]. split.
  - apply Forall_app. split; assumption.
  - apply NoDup_app. split; [exact N1|]. split; [|exact N2].
    intros i Hi Hj. apply list_elem_of_In in Hi, Hj. exact (Hd i Hi Hj).
Qed.

Lemma filter_new_id (l : list timer) (tid : Z) (x : timer) :
  ids_ok tid l -> t_id x = tid - 1 ->
  filter (fun t => negb (t_id t =? tid - 1)) (l ++ [x]) = l.
Proof.
  intros Hok Hx. rewrite filter_app, filter_cons, Hx, Z.eqb_refl, decide_False by (intros []).
  simpl. rewrite app_nil_r. apply filter_keep_all.
  intros t Ht Heq. pose proof (ids_in_range tid (t_id t) l Hok (in_map _ _ _ Ht)). lia.
Qed.

(** In every state the shim reaches, clearing the ID just returned by
    [setTimeout(fn, delay)] (a numeric or omitted delay) or by
    [setInterval(fn, interval)] removes the entry it queued and gives back
    the queues, the clock and the posted calls as they were: only the ID
    counter has moved. *)
Theorem set_then_clear (ops : list op) (f : nat) (d : delay) (q : Q) :
  d <> DNaN ->
  snd (setTimeout (Fun f) d (run ops)) = Some (timerId (run ops) - 1) /\
  fst (clearTimeout (timerId (run ops) - 1) (fst (setTimeout (Fun f) d (run ops)))) =
    set_timerId (run ops) (timerId (run ops) - 1) /\
  snd (setInterval (Fun f) (DNum q) (run ops)) = Some (timerId (run ops) - 1) /\
  fst (clearInterval (timerId (run ops) - 1) (fst (setInterval (Fun f) (DNum q) (run ops)))) =
    set_timerId (run ops) (timerId (run ops) - 1).
Proof.
  intros Hd. pose proof (inv_run ops) as (H0 & H1 & H2).
  set (s := run ops) in *.
  assert (Hc : forall id, id < 0 -> (id =? 0) = false /\ (0 <=? id) = false)
    by (intros id Hid; split; lia).
  destruct (Hc (timerId s - 1) ltac:(lia)) as [E1 E2].
  assert (HT : forall q', snd (setTimeout (Fun f) (DNum q') s) = Some (timerId s - 1) /\
                 fst (clearTimeout (timerId s - 1) (fst (setTimeout (Fun f) (DNum q') s))) =
                 set_timerId s (timerId s - 1)).
  { intros q'. split; [reflexivity|]. unfold clearTimeout. simpl. rewrite E1, E2. simpl.
    unfold set_timeouts, set_timerId. simpl. rewrite (filter_new_id _ (timerId s)) by (assumption || reflexivity).
    reflexivity. }
  split; [|split]; [| |split].
  - destruct d as [q'| |]; [exact (proj1 (HT q'))|exact (proj1 (HT 0%Q))|congruence].
  - destruct d as [q'| |]; [exact (proj2 (HT q'))|exact (proj2 (HT 0%Q))|congruence].
  - reflexivity.
  - unfold clearInterval. simpl. rewrite E1, E2. simpl.
    unfold set_intervals, set_timerId. simpl. rewrite (filter_new_id _ (timerId s)) by (assumption || reflexivity).
    reflexivity.
Qed.

Lemma set_then_clear_witness :
  DUndefined <> DNaN /\
  (snd (setTimeout (Fun 7) DUndefined (run [OpSetTimeout (Fun 1) (DNum 5)])) =
     Some (timerId (run [OpSetTimeout (Fun 1) (DNum 5)]) - 1) /\
   fst (clearTimeout (timerId (run [OpSetTimeout (Fun 1) (DNum 5)]) - 1)
          (fst (setTimeout (Fun 7) DUndefined (run [OpSetTimeout (Fun 1) (DNum 5)])))) =
     set_timerId (run [OpSetTimeout (Fun 1) (DNum 5)]) (timerId (run [OpSetTimeout (Fun 1) (DNum 5)]) - 1) /\
   snd (setInterval (Fun 7) (DNum 10) (run [OpSetTimeout (Fun 1) (DNum 5)])) =
     Some (timerId (run [OpSetTimeout (Fun 1) (DNum 5)]) - 1) /\
   fst (clearInterval (timerId (run [OpSetTimeout (Fun 1) (DNum 5)]) - 1)
          (fst (setInterval (Fun 7) (DNum 10) (run [OpSetTimeout (Fun 1) (DNum 5)])))) =
     set_timerId (run [OpSetTimeout (Fun 1) (DNum 5)]) (timerId (run [OpSetTimeout (Fun 1) (DNum 5)]) - 1)).
Proof.
  split; [discriminate|].
  apply set_then_clear. discriminate.
Defined.

(** The sum of the frame intervals of the ticks of a sequence of calls. *)
Definition tick_time (ops : list op) (t0 : Q) : Q :=
  fold_left (fun acc o => match o with OpTick fi => (acc + fi)%Q | _ => acc end) ops t0.

Lemma currentTime_step (s : state) (o : op) :
  currentTime (step s o) = match o with OpTick fi => (currentTime s + fi)%Q | _ => currentTime s end.
Proof.
  destruct o as [fn d|fn d|id|id|fi|t]; simpl.
  - destruct fn, d; reflexivity.
  - destruct fn, d; reflexivity.
  - unfold clearInterval. destruct (id =? 0), (0 <=? id); reflexivity.
  - unfold clearTimeout. destruct (id =? 0), (0 <=? id); reflexivity.
  - unfold tick. rewrite (proj2 (proj2 (proj2 (proj2 (timeouts_dispatch _ _))))).
    rewrite (proj2 (proj2 (proj2 (proj2 (proj2 (intervals_dispatch _ _)))))). reflexivity.
  - rewrite (proj2 (proj2 (proj2 (proj2 (proj2 (intervals_dispatch _ _)))))).
    exact (proj2 (proj2 (proj2 (proj2 (timeouts_dispatch _ _))))).
Qed.

Lemma currentTime_fold (ops : list op) (s : state) :
  currentTime (fold_left step ops s) = tick_time ops (currentTime s).
Proof.
  revert s. induction ops as [|o ops IH]; intros s; [reflexivity|].
  simpl. rewrite IH, currentTime_step. destruct o; reflexivity.
Qed.

Lemma tick_time_mono (ops : list op) (t0 : Q) :
  (forall fi, In (OpTick fi) ops -> (0 <= fi)%Q) -> (t0 <= tick_time ops t0)%Q.
Proof.
  revert t0. induction ops as [|o ops IH]; intros t0 H; simpl; [apply Qle_refl|].
  eapply Qle_trans; [|apply IH; intros fi Hfi; apply H; right; exact Hfi].
  destruct o; try apply Qle_refl.
  assert (0 <= frameInterval)%Q by (apply H; left; reflexivity). lra.
Qed.

(** The virtual clock of the shim moves only on ticks: after any
    sequence of calls from a fresh context it is the sum of the ticks'
    frame intervals ([setTimeout], [setInterval], the clear functions and
    the pre-start dispatch leave it as it is), so with non-negative frame
    intervals it never goes back. *)
Theorem virtual_clock (ops1 ops2 : list op) :
  currentTime (run (ops1 ++ ops2)) = tick_time (ops1 ++ ops2) 0 /\
  ((forall fi, In (OpTick fi) ops2 -> (0 <= fi)%Q) ->
   (currentTime (run ops1) <= currentTime (run (ops1 ++ ops2)))%Q).
Proof.
  unfold run. split; [apply currentTime_fold|].
  intros H. rewrite fold_left_app, (currentTime_fold ops2). apply tick_time_mono, H.
Qed.

Lemma virtual_clock_witness :
  (forall fi, In (OpTick fi) [OpSetTimeout (Fun 1) (DNum 5); OpTick 40] -> (0 <= fi)%Q) /\
  (currentTime (run [OpTick 40]) <=
     currentTime (run ([OpTick 40] ++ [OpSetTimeout (Fun 1) (DNum 5); OpTick 40])))%Q.
Proof.
  assert (H : forall fi, In (OpTick fi) [OpSetTimeout (Fun 1) (DNum 5); OpTick 40] -> (0 <= fi)%Q).
  { intros fi [E|[E|[]]]; [discriminate|]. injection E as <-. unfold Qle; simpl; lia. }
  split; [exact H|]. exact (proj2 (virtual_clock [OpTick 40] _) H).
Defined.

(** The default arguments of the shim: [setTimeout(fn)] without a delay
    queues [fn] with the delay 0, so the next tick with a non-negative
    frame interval posts [fn(t)] at that tick's time [t] and drops the
    entry; [setInterval(fn)] without an interval ([isNaN(undefined)])
    returns [undefined] and queues nothing. *)
Theorem default_delays (ops : list op) (f : nat) (fi : Q) :
  (0 <= fi)%Q ->
  In (f, (currentTime (run ops) + fi)%Q) (tasks (tick fi (fst (setTimeout (Fun f) DUndefined (run ops))))) /\
  (forall t, In t (timeoutCallbacks (tick fi (fst (setTimeout (Fun f) DUndefined (run ops))))) ->
     t_id t <> timerId (run ops) - 1) /\
  setInterval (Fun f) DUndefined (run ops) = (run ops, None).
Proof.
  intros Hfi. split; [|split; [|reflexivity]].
  - set (s := run ops). unfold tick. simpl.
    set (s1 := mkState _ _ _ _ _).
    rewrite (proj1 (proj2 (timeouts_dispatch _ _))).
    apply in_or_app. right. apply in_map_iff.
    exists (mkTimer (timerId s - 1) (currentTime s) 0 f). split; [reflexivity|].
    apply list_elem_of_In, list_elem_of_filter. split.
    + unfold due; simpl. rewrite (proj2 (Qle_bool_true_iff _ _)); [exact I|lra].
    + apply list_elem_of_In.
      replace (timeoutCallbacks (callIntervalCallbacks (currentTime s + fi) s1))
        with (timeoutCallbacks s1) by (unfold callIntervalCallbacks; destruct (intervals_pass _ _); reflexivity).
      simpl. apply in_or_app. right. left. reflexivity.
  - intros t Ht Heq. set (s := run ops) in *. unfold tick in Ht. simpl in Ht.
    rewrite (proj1 (timeouts_dispatch _ _)) in Ht.
    apply list_elem_of_In, list_elem_of_filter in Ht as [Hnd Hin].
    apply list_elem_of_In in Hin.
    unfold callIntervalCallbacks in Hin. destruct (intervals_pass _ _) in Hin. simpl in Hin.
    apply in_app_or in Hin as [Hin|[<-|[]]].
    + pose proof (inv_run ops) as (_ & _ & H2). fold s in H2.
      pose proof (ids_in_range _ _ _ H2 (in_map t_id _ _ Hin)). lia.
    + unfold due in Hnd; simpl in Hnd. rewrite (proj2 (Qle_bool_true_iff _ _)) in Hnd by lra.
      exact Hnd.
Qed.

Lemma default_delays_witness :
  (0 <= 40)%Q /\
  In (3%nat, (currentTime (run []) + 40)%Q) (tasks (tick 40 (fst (setTimeout (Fun 3) DUndefined (run []))))) /\
  (forall t, In t (timeoutCallbacks (tick 40 (fst (setTimeout (Fun 3) DUndefined (run []))))) ->
     t_id t <> timerId (run []) - 1) /\
  setInterval (Fun 3) DUndefined (run []) = (run [], None).
Proof.
  assert (H : (0 <= 40)%Q) by (unfold Qle; simpl; lia).
  split; [exact H|]. exact (default_delays [] 3 40 H).
Defined.

End TimerDispatch.

Module CapturePhases.
Import JsNumber Capture.

(** The value of [currentTime] after [n] ticks: [n] double additions of
    the frame interval, starting from 0. *)
Fixpoint tick_time (fi : float) (n : nat) : float :=
  match n with
  | O => 0%float
  | S n' => (tick_time fi n' + fi)%float
  end.

Section Phases.
Variables (c : config) (e : env) (fc : Z).
Hypothesis Hfc : frameCount c = Int fc.
Hypothesis Htick : forall n, tickResolves e n = true.
Hypothesis Hcap : forall k, captureResult e k = true.

(** While the ticks [k+1 .. k+m] stay before the start time, the loop
    skips them. *)
Lemma skip_phase (m fuel k : nat) (x : ctx) :
  stopFlag x = false -> currentTime x = tick_time (frameInterval c) k ->
  (forall j, (k < j <= k + m)%nat -> le (or_zero (startTime c)) (tick_time (frameInterval c) j) = false) ->
  exists x', stopFlag x' = false /\ frameIndex x' = frameIndex x /\
    currentTime x' = tick_time (frameInterval c) (k + m) /\
    nextFrame (m + fuel) c e x = repeat SkipFrame m ++ nextFrame fuel c e x'.
Proof.
  revert k x. induction m as [|m IH]; intros k x Hs Ht Hj.
  - exists x. rewrite Nat.add_0_r. repeat (split; [assumption || reflexivity|]). reflexivity.
  - destruct (IH (S k) (mkCtx (currentTime x + frameInterval c) (frameIndex x) (stopFlag x)
                        (S (ticks x)) (captures x))) as (x' & H1 & H2 & H3 & H4).
    + exact Hs.
    + simpl. rewrite Ht. reflexivity.
    + intros j Hr. apply Hj. lia.
    + exists x'. split; [exact H1|]. split; [exact H2|]. split; [rewrite H3; f_equal; lia|].
      assert (Hb : le (or_zero (startTime c)) (currentTime x + frameInterval c)%float = false).
      { rewrite Ht. apply (Hj (S k)). lia. }
      simpl. rewrite Hs, Htick. unfold isCapturing. simpl.
      rewrite Hb. simpl. rewrite Hs in H4. rewrite H4. reflexivity.
Qed.

(** While the ticks [k+1 .. k+n] are at or after the start time, with [n]
    frames left to capture, every tick captures until the frame count is
    reached. *)
Lemma capture_phase (fuel k : nat) (x : ctx) :
  stopFlag x = false -> currentTime x = tick_time (frameInterval c) k ->
  frameIndex x < fc ->
  (forall j, (k < j <= k + Z.to_nat (fc - frameIndex x))%nat ->
     le (or_zero (startTime c)) (tick_time (frameInterval c) j) = true) ->
  (Z.to_nat (fc - frameIndex x) <= fuel)%nat ->
  nextFrame fuel c e x = repeat CaptureFrame (Z.to_nat (fc - frameIndex x)) ++ [ScreencastCompleted].
Proof.
  revert k x. induction fuel as [|fuel IH]; intros k x Hs Ht Hlt Hj Hfuel; [lia|].
  assert (Hb : le (or_zero (startTime c)) (currentTime x + frameInterval c)%float = true).
  { rewrite Ht. apply (Hj (S k)). lia. }
  simpl. rewrite Hs, Htick. unfold isCapturing. simpl.
  rewrite Hb, Hcap, Hfc. simpl.
  destruct (fc <=? frameIndex x + 1) eqn:Er.
  - apply Z.leb_le in Er. replace (Z.to_nat (fc - frameIndex x)) with 1%nat by lia. reflexivity.
  - apply Z.leb_gt in Er. rewrite ?Hs.
    replace (Z.to_nat (fc - frameIndex x)) with (S (Z.to_nat (fc - (frameIndex x + 1)))) by lia.
    simpl. f_equal. apply (IH (S k)); simpl; [reflexivity|rewrite Ht; reflexivity|lia| |lia].
    intros j Hr. apply Hj. lia.
Qed.

End Phases.

Lemma forallb_seq (p : nat -> bool) (a n : nat) :
  forallb p (seq a n) = true -> forall j, (a <= j < a + n)%nat -> p j = true.
Proof.
  intros H j Hj. rewrite forallb_forall in H. apply H. apply in_seq. lia.
Qed.

(** When every tick resolves and every capture succeeds, [start()] calls
    [skipFrame] for each of the first [m] ticks, whose [currentTime] (the
    double sums [frameInterval], [frameInterval + frameInterval], ...)
    is below [config.startTime || 0], then calls [captureFrame] exactly
    [frameCount] times on the next ticks, which are at or after it, and
    notifies [screencastCompleted]. *)
Theorem start_skips_then_captures (c : config) (e : env) (fc : Z) (m fuel : nat) :
  frameCount c = Int fc ->
  checkConfig c = Ok tt ->
  forallb (fun j => negb (le (or_zero (startTime c)) (tick_time (frameInterval c) j))) (seq 1 m) = true ->
  forallb (fun j => le (or_zero (startTime c)) (tick_time (frameInterval c) j)) (seq (S m) (Z.to_nat fc)) = true ->
  (forall n, tickResolves e n = true) ->
  (forall k, captureResult e k = true) ->
  (m + Z.to_nat fc <= fuel)%nat ->
  start fuel c e = Ok (repeat SkipFrame m ++ repeat CaptureFrame (Z.to_nat fc) ++ [ScreencastCompleted]).
Proof.
  intros Hfc Hchk Hskip Hcapt Htick Hcap Hfuel.
  assert (Hpos : 0 < fc).
  { unfold checkConfig in Hchk. rewrite Hfc in Hchk.
    destruct (isNaN (fps c) || le (fps c) 0%float); [discriminate|].
    destruct (isNaN (duration c) || le (duration c) 0%float); [discriminate|].
    simpl in Hchk. destruct (fc <=? 0) eqn:E; [discriminate|]. lia. }
  unfold start. rewrite Hchk. f_equal.
  replace fuel with (m + (fuel - m))%nat by lia.
  destruct (skip_phase c e Htick m (fuel - m) 0 init_ctx) as (x' & H1 & H2 & H3 & H4);
    [reflexivity|reflexivity| |].
  { intros j Hj. apply negb_true_iff. apply (forallb_seq _ 1 m Hskip). lia. }
  rewrite H4. f_equal. simpl in H2, H3.
  rewrite (capture_phase c e fc Hfc Htick Hcap (fuel - m) m x' H1 H3); rewrite ?H2.
  - replace (fc - 0) with fc by lia. reflexivity.
  - lia.
  - intros j Hj. apply (forallb_seq _ (S m) (Z.to_nat fc) Hcapt). lia.
  - lia.
Qed.

(** At 24 fps with [startTime] 250, the double sum of six frame intervals
    is 249.99999999999997, below 250: six ticks are skipped, not five. *)
Lemma start_skips_then_captures_witness :
  frameCount (mkConfig 24%float 250%float 1000%float (Int 3)) = Int 3 /\
  checkConfig (mkConfig 24%float 250%float 1000%float (Int 3)) = Ok tt /\
  forallb (fun j => negb (le (or_zero (startTime (mkConfig 24%float 250%float 1000%float (Int 3))))
                           (tick_time (frameInterval (mkConfig 24%float 250%float 1000%float (Int 3))) j)))
    (seq 1 6) = true /\
  forallb (fun j => le (or_zero (startTime (mkConfig 24%float 250%float 1000%float (Int 3))))
                      (tick_time (frameInterval (mkConfig 24%float 250%float 1000%float (Int 3))) j))
    (seq 7 (Z.to_nat 3)) = true /\
  start 10 (mkConfig 24%float 250%float 1000%float (Int 3)) (mkEnv (fun _ => true) (fun _ => true)) =
    Ok (repeat SkipFrame 6 ++ repeat CaptureFrame (Z.to_nat 3) ++ [ScreencastCompleted]).
Proof.
  assert (H1 : checkConfig (mkConfig 24%float 250%float 1000%float (Int 3)) = Ok tt) by (vm_compute; reflexivity).
  assert (H2 : forallb (fun j => negb (le (or_zero (startTime (mkConfig 24%float 250%float 1000%float (Int 3))))
                           (tick_time (frameInterval (mkConfig 24%float 250%float 1000%float (Int 3))) j)))
    (seq 1 6) = true) by (vm_compute; reflexivity).
  assert (H3 : forallb (fun j => le (or_zero (startTime (mkConfig 24%float 250%float 1000%float (Int 3))))
                      (tick_time (frameInterval (mkConfig 24%float 250%float 1000%float (Int 3))) j))
    (seq 7 (Z.to_nat 3)) = true) by (vm_compute; reflexivity).
  split; [reflexivity|]. split; [exact H1|]. split; [exact H2|]. split; [exact H3|].
  exact (start_skips_then_captures (mkConfig 24%float 250%float 1000%float (Int 3))
           (mkEnv (fun _ => true) (fun _ => true)) 3 6 10
           eq_refl H1 H2 H3 (fun _ => eq_refl) (fun _ => eq_refl) ltac:(simpl; lia)).
Defined.

(** The number of [captureFrame] calls of a trace. *)
Fixpoint count_captures (tr : list event) : nat :=
  match tr with
  | [] => O
  | CaptureFrame :: tr' => S (count_captures tr')
  | _ :: tr' => count_captures tr'
  end.

(** [screencastCompleted] occurs at most once, as the last call. *)
Definition completed_last (tr : list event) : Prop :=
  forall pre post, tr = pre ++ ScreencastCompleted :: post -> post = [] /\ ~ In ScreencastCompleted pre.

Lemma completed_last_nil : completed_last [].
Proof. intros pre post H. destruct pre; discriminate. Qed.

Lemma completed_last_single : completed_last [ScreencastCompleted].
Proof.
  intros pre post H. destruct pre as [|ev pre]; simpl in H.
  - injection H as <-. split; [reflexivity|simpl; tauto].
  - injection H as -> H. destruct pre; discriminate.
Qed.

Lemma completed_last_cons (ev : event) (tr : list event) :
  ev <> ScreencastCompleted -> completed_last tr -> completed_last (ev :: tr).
Proof.
  intros Hev H pre post E. destruct pre as [|ev' pre]; simpl in E.
  - injection E as E1 _. exfalso. exact (Hev E1).
  - injection E as <- E. destruct (H pre post E) as [H1 H2]. split; [exact H1|].
    intros [H3|H3]; [congruence|exact (H2 H3)].
Qed.

Lemma completion_shape (fuel : nat) (c : config) (e : env) (x : ctx) :
  completed_last (nextFrame fuel c e x) /\
  (In ScreencastCompleted (nextFrame fuel c e x) ->
   forall k, (k < count_captures (nextFrame fuel c e x))%nat -> captureResult e (captures x + k) = true).
Proof.
  revert x. induction fuel as [|fuel IH]; intros x.
  - split; [apply completed_last_nil|intros []].
  - simpl. destruct (stopFlag x).
    { split; [apply completed_last_single|]. intros _ k Hk. simpl in Hk. lia. }
    destruct (tickResolves e (ticks x)); simpl; [|split; [apply completed_last_nil|intros []]].
    destruct (isCapturing c _).
    + destruct (captureResult e (captures x)) eqn:Ec; simpl.
      * destruct (reached (frameIndex x + 1) (frameCount c)).
        -- split; [apply completed_last_cons; [discriminate|apply completed_last_single]|].
           intros _ k Hk. simpl in Hk. replace k with 0%nat by lia. rewrite Nat.add_0_r. exact Ec.
        -- destruct (IH (mkCtx (currentTime x + frameInterval c)%float (frameIndex x + 1) false
                              (S (ticks x)) (S (captures x)))) as [IH1 IH2].
              split; [apply completed_last_cons; [discriminate|exact IH1]|].
              intros [Hin|Hin] k Hk; [discriminate|]. simpl in Hk.
              destruct k as [|k]; [rewrite Nat.add_0_r; exact Ec|].
              specialize (IH2 Hin k ltac:(lia)). simpl in IH2.
              rewrite <- Nat.add_succ_comm. exact IH2.
      * split; [apply completed_last_cons; [discriminate|apply completed_last_nil]|].
        intros [H|[]]. discriminate.
    + destruct (IH (mkCtx (currentTime x + frameInterval c)%float (frameIndex x) false
                          (S (ticks x)) (captures x))) as [IH1 IH2].
      split; [apply completed_last_cons; [discriminate|exact IH1]|].
      intros [Hin|Hin] k Hk; [discriminate|]. exact (IH2 Hin k Hk).
Qed.

(** Whatever the configuration and the page's answers, the loop run by
    [start()] notifies [screencastCompleted] at most once and only as its
    last host call, and notifies it only when every [captureFrame] call it
    made returned true: a failed capture ends the loop without
    completion. *)
Theorem start_completion (fuel : nat) (c : config) (e : env) (tr : list event) :
  start fuel c e = Ok tr ->
  (forall pre post, tr = pre ++ ScreencastCompleted :: post -> post = [] /\ ~ In ScreencastCompleted pre) /\
  (In ScreencastCompleted tr -> forall k, (k < count_captures tr)%nat -> captureResult e k = true).
Proof.
  unfold start. destruct (checkConfig c); [|discriminate]. intros E. injection E as <-.
  exact (completion_shape fuel c e init_ctx).
Qed.

Lemma start_completion_witness :
  start 5 (mkConfig 30%float 0%float 100%float (Int 3)) (mkEnv (fun _ => true) (fun k => Nat.ltb k 1)) =
    Ok [CaptureFrame; CaptureFrame] /\
  ((forall pre post, [CaptureFrame; CaptureFrame] = pre ++ ScreencastCompleted :: post ->
      post = [] /\ ~ In ScreencastCompleted pre) /\
   (In ScreencastCompleted [CaptureFrame; CaptureFrame] ->
      forall k, (k < count_captures [CaptureFrame; CaptureFrame])%nat ->
      captureResult (mkEnv (fun _ => true) (fun k => Nat.ltb k 1)) k = true)).
Proof.
  assert (H : start 5 (mkConfig 30%float 0%float 100%float (Int 3)) (mkEnv (fun _ => true) (fun k => Nat.ltb k 1)) =
    Ok [CaptureFrame; CaptureFrame]) by (vm_compute; reflexivity).
  split; [exact H|]. exact (start_completion _ _ _ _ H).
Defined.

End CapturePhases.

Module FrameWriterFacts.
Import FrameWriter.
Local Open Scope nat_scope.

(** The frames the array still holds from the last full batch: holes
    before the first batch. *)
Definition last_batch (P : nat) (done : list nat) : list (option nat) :=
  match done with
  | [] => repeat None P
  | _ => map Some (drop (length done - P) done)
  end.

(** The state after the inputs [fs]: [done] is written in full batches
    and [cur] waits in the array, in front of the rest of the last
    batch. *)
Definition winv (P : nat) (fs : list nat) (w : writer) : Prop :=
  exists done cur q,
    fs = done ++ cur /\ length done = q * P /\ length cur < P /\
    frameBufferIndex w = length cur /\ written w = done /\
    frameCount w = length fs /\ (fs <> [] -> pipeStream w = true) /\
    frameBuffers w = map Some cur ++ drop (length cur) (last_batch P done).

Lemma length_last_batch (P q : nat) (done : list nat) :
  length done = q * P -> length (last_batch P done) = P.
Proof.
  intros Hq. destruct done as [|d done']; simpl.
  - apply repeat_length.
  - rewrite length_map, length_drop. simpl in *.
    destruct q; simpl in Hq; lia.
Qed.

Lemma buffer_concat_map_Some (l : list nat) : buffer_concat (map Some l) = Some l.
Proof. induction l as [|x l IH]; simpl; [reflexivity|rewrite IH; reflexivity]. Qed.

Lemma input_all_app (P : nat) (fs : list nat) (f : nat) (w : writer) :
  input_all P (fs ++ [f]) w =
  match input_all P fs w with Ok w' => input P f w' | Throw m => Throw m end.
Proof.
  revert w. induction fs as [|g fs IH]; intros w; simpl.
  - destruct (input P f w); reflexivity.
  - destruct (input P g w); [apply IH|reflexivity].
Qed.

Lemma winv_fresh (P : nat) : 0 < P -> winv P [] (fresh P).
Proof.
  intros HP.
  exists [], [], 0. unfold fresh. simpl.
  split; [reflexivity|]. split; [reflexivity|]. split; [lia|].
  split; [reflexivity|]. split; [reflexivity|]. split; [reflexivity|].
  split; [intros H; congruence|reflexivity].
Qed.

Lemma winv_step (P : nat) (fs : list nat) (f : nat) (w : writer) :
  0 < P -> winv P fs w -> exists w', input P f w = Ok w' /\ winv P (fs ++ [f]) w'.
Proof.
  intros HP (done & cur & q & Hfs & Hq & Hcur & Hidx & Hwr & Hcnt & Hpipe & Hbuf).
  pose proof (length_last_batch P q done Hq) as HL.
  destruct (lookup_lt_is_Some_2 (last_batch P done) (length cur)) as [y Hy]; [lia|].
  assert (Hstore : array_store (frameBuffers w) (frameBufferIndex w) f =
                   map Some (cur ++ [f]) ++ drop (S (length cur)) (last_batch P done)).
  { unfold array_store. rewrite Hbuf, Hidx, length_app, length_map, length_drop.
    destruct (Nat.ltb_spec (length cur) (length cur + (length (last_batch P done) - length cur)))
      as [_|Hge]; [|lia].
    rewrite (drop_S _ _ _ Hy).
    rewrite <- (Nat.add_0_r (length cur)) at 1.
    rewrite <- (length_map Some cur) at 1. rewrite insert_app_r. simpl.
    rewrite map_app, <- app_assoc. reflexivity. }
  unfold input. rewrite Hstore, Hidx.
  destruct (Nat.ltb_spec (S (length cur)) P) as [Hlt|Hge].
  - eexists. split; [reflexivity|].
    exists done, (cur ++ [f]), q. simpl.
    rewrite length_app. simpl.
    split; [rewrite Hfs, app_assoc; reflexivity|]. split; [exact Hq|].
    split; [lia|]. split; [lia|]. split; [exact Hwr|].
    split; [rewrite Hcnt, length_app; simpl; lia|].
    split; [intros _; reflexivity|]. rewrite Nat.add_1_r. reflexivity.
  - assert (Heq : S (length cur) = P) by lia.
    rewrite drop_ge by lia. rewrite app_nil_r, buffer_concat_map_Some.
    eexists. split; [reflexivity|].
    exists (done ++ cur ++ [f]), [], (S q). simpl.
    split; [rewrite Hfs, app_nil_r, app_assoc; reflexivity|].
    split; [rewrite !length_app, Hq; simpl; lia|]. split; [lia|]. split; [reflexivity|].
    split; [rewrite Hwr; reflexivity|]. split; [rewrite Hcnt, length_app; simpl; lia|].
    split; [intros _; reflexivity|].
    assert (Hlb : last_batch P (done ++ cur ++ [f]) = map Some (cur ++ [f])).
    { unfold last_batch. destruct (done ++ cur ++ [f]) as [|d r] eqn:E.
      - exfalso. apply (f_equal (@length nat)) in E. rewrite !length_app in E. simpl in E. lia.
      - rewrite <- E. rewrite (drop_app_length' done (cur ++ [f])); [reflexivity|].
        rewrite !length_app. simpl. lia. }
    rewrite Hlb. reflexivity.
Qed.

Lemma winv_run (P : nat) (fs : list nat) :
  0 < P -> exists w, input_all P fs (fresh P) = Ok w /\ winv P fs w.
Proof.
  intros HP. induction fs as [|f fs IH] using rev_ind.
  - exists (fresh P). split; [reflexivity|apply winv_fresh; exact HP].
  - destruct IH as (w & Hrun & Hinv).
    destruct (winv_step P fs f w HP Hinv) as (w' & Hin & Hinv').
    exists w'. split; [|exact Hinv']. rewrite input_all_app, Hrun. exact Hin.
Qed.

Lemma omap_id_map_Some (l : list nat) : omap id (map Some l) = l.
Proof.
  induction l as [|x l IH]; [reflexivity|].
  change (omap id (map Some (x :: l))) with (x :: omap id (map Some l)). rewrite IH. reflexivity.
Qed.

Lemma drop_map_Some (n : nat) (l : list nat) : drop n (map Some l) = map Some (drop n l).
Proof. revert l. induction n as [|n IH]; intros [|x l]; try reflexivity. simpl. apply IH. Qed.

Lemma omap_id_repeat_None (n : nat) : omap id (repeat (@None nat) n) = [].
Proof.
  induction n as [|n IH]; [reflexivity|].
  change (omap id (repeat (@None nat) (S n))) with (omap id (repeat (@None nat) n)). exact IH.
Qed.

Lemma omap_id_app (l k : list (option nat)) : omap id (l ++ k) = omap id l ++ omap id k.
Proof.
  induction l as [|[x|] l IH]; [reflexivity| |].
  - change (omap id ((Some x :: l) ++ k)) with (x :: omap id (l ++ k)). rewrite IH. reflexivity.
  - change (omap id ((None :: l) ++ k)) with (omap id (l ++ k)). exact IH.
Qed.

Lemma drop_repeat_None (n m : nat) : drop n (repeat (@None nat) m) = repeat None (m - n).
Proof.
  revert m. induction n as [|n IH]; intros [|m]; try reflexivity.
  simpl. apply IH.
Qed.

(** [Synthesizer.input] followed by [#drain] (as [endInput] does), from
    the constructor's state with [parallelWriteFrames > 0]: [input]
    never throws and counts every frame; before the drain the pipe has
    received the frames in full batches of [parallelWriteFrames]
    ([length fs - length fs mod P] of them); the drain then writes the
    rest, followed by the frames of the previous batch that the array
    still holds (the array is never cleared): when a batch was written
    and the count is not a multiple of [P], the last [P - length fs mod P]
    frames of that batch are written a second time. *)
Theorem input_then_drain (P : nat) (fs : list nat) :
  0 < P ->
  exists w, input_all P fs (fresh P) = Ok w /\ frameCount w = length fs /\
    written w = take (length fs - length fs mod P) fs /\
    written (drain w) =
      fs ++ (if (length fs mod P =? 0) || (length fs <? P) then []
             else take (P - length fs mod P) (drop (length fs - P) fs)).
Proof.
  intros HP. destruct (winv_run P fs HP) as (w & Hrun & done & cur & q & Hfs & Hq & Hcur & Hidx & Hwr & Hcnt & Hpipe & Hbuf).
  assert (Hmod : length fs mod P = length cur).
  { rewrite Hfs, length_app, Hq. rewrite Nat.add_comm, Nat.Div0.mod_add.
    apply Nat.mod_small. exact Hcur. }
  exists w. split; [exact Hrun|]. split; [exact Hcnt|]. rewrite Hmod.
  assert (Hn : length fs = length done + length cur) by (rewrite Hfs, length_app; reflexivity).
  split.
  { rewrite Hwr, Hfs, take_app_le by (rewrite length_app; lia).
    rewrite length_app, Nat.add_sub, take_ge by lia. reflexivity. }
  unfold drain. destruct fs as [|f0 fs0] eqn:Efs.
  - simpl in Hrun. injection Hrun as <-. destruct cur; [|simpl in Hn; lia].
    destruct P as [|P']; [lia|]. reflexivity.
  - rewrite <- Efs in *. rewrite Hpipe by (rewrite Efs; discriminate). simpl.
    rewrite Hidx, Hwr, Hbuf.
    destruct (Nat.ltb_spec 0 (length cur)) as [Hc|Hc].
    + rewrite omap_id_app, omap_id_map_Some, app_assoc, <- Hfs.
      f_equal. destruct done as [|d done'] eqn:Ed.
      * simpl. rewrite drop_repeat_None, omap_id_repeat_None.
        simpl in Hn. destruct (Nat.ltb_spec (length fs) P); [|lia].
        rewrite orb_true_r. reflexivity.
      * rewrite <- Ed in *. unfold last_batch. rewrite Ed. rewrite <- Ed.
        rewrite drop_map_Some, omap_id_map_Some.
        assert (Hq1 : P <= length done).
        { rewrite Ed in Hq |- *. simpl in Hq |- *. destruct q; simpl in Hq; lia. }
        destruct (Nat.eqb_spec (length cur) 0) as [|_]; [lia|].
        destruct (Nat.ltb_spec (length fs) P) as [|_]; [lia|]. simpl.
        rewrite Hfs, length_app. rewrite drop_app_le by lia.
        rewrite take_app_le by (rewrite length_drop; lia).
        rewrite drop_drop, take_drop_commute.
        rewrite take_ge by lia. f_equal. lia.
    + assert (Hc0 : length cur = 0) by lia. rewrite Hc0, app_nil_r. simpl.
      rewrite Hfs. apply length_zero_iff_nil in Hc0. subst cur. rewrite app_nil_r. reflexivity.
Qed.

Lemma input_then_drain_witness :
  (0 < 3) /\
  exists w, input_all 3 [1;2;3;4] (fresh 3) = Ok w /\ frameCount w = 4 /\
    written w = [1;2;3] /\ written (drain w) = [1;2;3;4;2;3].
Proof.
  split; [lia|].
  destruct (input_then_drain 3 [1;2;3;4] ltac:(lia)) as (w & H1 & H2 & H3 & H4).
  exists w. split; [exact H1|]. split; [exact H2|]. split; [exact H3|]. exact H4.
Defined.

End FrameWriterFacts.

Module VideoSeekFacts.
Import Media VideoSeek.

(** One [seek] on a video that does not loop: nothing happens, or the
    frame [i] is drawn, [i] is below [frameCount], differs from the frame
    shown, and the video was not at its end. *)
Lemma seek_noloop (t : Q) (cv : vcanvas) :
  loop cv = false ->
  seek t cv = (cv, None) \/
  exists i, seek t cv = (mkCanvas (vc cv) false (removed cv) (ready cv) (Some i) t
                                  (offsetTime cv) (config cv), Some i) /\
            i < cf_frameCount (config cv) /\ frameIndex cv <> Some i /\
            default 0 (frameIndex cv) < cf_frameCount (config cv) - 1.
Proof.
  intros Hl. unfold seek. destruct (destoryed (vc cv)); [left; reflexivity|].
  case_bool_decide as Heq; [left; reflexivity|].
  rewrite Hl.
  destruct (removed cv) eqn:Er; [left; reflexivity|].
  destruct (isEnd cv) eqn:Ee; [left; reflexivity|].
  destruct (cf_frameCount (config cv) <=? Qfloor (t / cf_frameInterval (config cv))) eqn:Ec;
    [left; reflexivity|].
  right. eexists. split; [reflexivity|].
  unfold isEnd in Ee. apply Z.leb_gt in Ee. apply Z.leb_gt in Ec.
  split; [exact Ec|]. split; [exact Heq|exact Ee].
Qed.

(** A video that does not loop and is at its end draws nothing more. *)
Lemma seek_run_stuck (ts : list Q) (cv : vcanvas) :
  loop cv = false -> cf_frameCount (config cv) - 1 <= default 0 (frameIndex cv) ->
  seek_run ts cv = (cv, []).
Proof.
  intros Hl He. induction ts as [|t ts IH]; [reflexivity|]. simpl.
  destruct (seek_noloop t cv Hl) as [E|(i & E & _ & _ & Hlt)]; [|lia].
  rewrite E. cbn iota beta. rewrite IH. reflexivity.
Qed.

(** The first frame drawn differs from the one shown before. *)
Lemma seek_run_first (ts : list Q) (cv : vcanvas) (j : Z) (ds : list Z) (cv' : vcanvas) :
  loop cv = false -> seek_run ts cv = (cv', j :: ds) -> frameIndex cv <> Some j.
Proof.
  intros Hl. induction ts as [|t ts IH]; simpl; [congruence|].
  destruct (seek_noloop t cv Hl) as [E|(i & E & _ & Hne & _)]; rewrite E; cbn iota beta.
  - destruct (seek_run ts cv) eqn:E2. simpl. intros H. apply IH. exact H.
  - match goal with |- context [seek_run ts ?c] => destruct (seek_run ts c) end.
    simpl. intros H. injection H as _ <- _. exact Hne.
Qed.

Lemma seek_run_noloop_shape (ts : list Q) (cv : vcanvas) :
  loop cv = false ->
  Forall (fun i => i < cf_frameCount (config cv)) (snd (seek_run ts cv)) /\
  (forall pre i post, snd (seek_run ts cv) = pre ++ i :: post ->
     cf_frameCount (config cv) - 1 <= i -> post = []) /\
  (forall pre i j post, snd (seek_run ts cv) = pre ++ i :: j :: post -> i <> j).
Proof.
  revert cv. induction ts as [|t ts IH]; intros cv Hl.
  { simpl. split; [constructor|]. split; intros pre; destruct pre; discriminate. }
  simpl. destruct (seek_noloop t cv Hl) as [E|(i & E & Hlt & Hne & Hend)]; rewrite E; cbn iota beta.
  - destruct (seek_run ts cv) as [cv2 ds] eqn:E2. simpl.
    destruct (IH cv Hl) as (H1 & H2 & H3). rewrite E2 in H1, H2, H3. simpl in H1, H2, H3.
    split; [exact H1|]. split; [exact H2|exact H3].
  - set (cv1 := mkCanvas (vc cv) false (removed cv) (ready cv) (Some i) t (offsetTime cv) (config cv)).
    destruct (seek_run ts cv1) as [cv2 ds] eqn:E2. simpl.
    destruct (IH cv1 eq_refl) as (H1 & H2 & H3). rewrite E2 in H1, H2, H3. simpl in H1, H2, H3.
    split; [constructor; [exact Hlt|exact H1]|]. split.
    + intros [|p pre] k post Hds Hk; simpl in Hds; injection Hds as Hk' Hds.
      * subst k. subst post. assert (Hst := seek_run_stuck ts cv1 eq_refl ltac:(simpl; lia)).
        rewrite Hst in E2. injection E2 as _ <-. reflexivity.
      * exact (H2 pre k post Hds Hk).
    + intros [|p pre] k l post Hds; simpl in Hds; injection Hds as Hk' Hds.
      * subst k. intros ->. apply (seek_run_first ts cv1 l post cv2 eq_refl); [|reflexivity].
        rewrite E2, Hds. reflexivity.
      * exact (H3 pre k l post Hds).
Qed.

(** [VideoCanvas.seek] on a video that does not loop, over successive
    seeks: every frame drawn is below [config.frameCount], two successive
    draws never draw the same frame, and once the last frame
    ([frameCount - 1]) is drawn nothing more is drawn ([isEnd()]). *)
Theorem seek_noloop_draws (ts : list Q) (cv : vcanvas) (cv' : vcanvas) (ds : list Z) :
  loop cv = false -> seek_run ts cv = (cv', ds) ->
  Forall (fun i => i < cf_frameCount (config cv)) ds /\
  (forall pre i post, ds = pre ++ i :: post -> cf_frameCount (config cv) - 1 <= i -> post = []) /\
  (forall pre i j post, ds = pre ++ i :: j :: post -> i <> j).
Proof.
  intros Hl E. pose proof (seek_run_noloop_shape ts cv Hl) as H. rewrite E in H. exact H.
Qed.

Definition cv_sample (fc : Z) (lp : bool) : vcanvas :=
  mkCanvas (mkVideoCanvas 0 10000 false) lp false true None 0 0 (mkVConfig 40 fc 10000).

Lemma seek_noloop_draws_witness :
  seek_run [0; 40; 50; 80; 120; 160]%Q (cv_sample 4 false) =
    (mkCanvas (mkVideoCanvas 0 10000 false) false false true (Some 3) 120 0 (mkVConfig 40 4 10000),
     [0; 1; 2; 3]) /\
  Forall (fun i => i < 4) [0; 1; 2; 3] /\
  (forall pre i post, [0; 1; 2; 3] = pre ++ i :: post -> 4 - 1 <= i -> post = []) /\
  (forall pre i j post, [0; 1; 2; 3] = pre ++ i :: j :: post -> i <> j).
Proof.
  assert (E : seek_run [0; 40; 50; 80; 120; 160]%Q (cv_sample 4 false) =
    (mkCanvas (mkVideoCanvas 0 10000 false) false false true (Some 3) 120 0 (mkVConfig 40 4 10000),
     [0; 1; 2; 3])) by (vm_compute; reflexivity).
  split; [exact E|]. exact (seek_noloop_draws _ (cv_sample 4 false) _ _ eq_refl E).
Defined.

(** A video of at most one frame that does not loop is never drawn: the
    index starts as [null], and [null >= frameCount - 1] holds in
    JavaScript, so [isEnd()] is true before the first seek. *)
Theorem one_frame_noloop_never_drawn (ts : list Q) (cv : vcanvas) :
  loop cv = false -> frameIndex cv = None -> cf_frameCount (config cv) <= 1 ->
  seek_run ts cv = (cv, []).
Proof.
  intros Hl Hn Hfc. apply seek_run_stuck; [exact Hl|]. rewrite Hn. simpl. lia.
Qed.

Lemma one_frame_noloop_never_drawn_witness :
  loop (cv_sample 1 false) = false /\ frameIndex (cv_sample 1 false) = None /\
  cf_frameCount (config (cv_sample 1 false)) <= 1 /\
  seek_run [0; 10; 100]%Q (cv_sample 1 false) = (cv_sample 1 false, []).
Proof.
  split; [reflexivity|]. split; [reflexivity|]. split; [simpl; lia|].
  exact (one_frame_noloop_never_drawn _ (cv_sample 1 false) eq_refl eq_refl ltac:(simpl; lia)).
Defined.

End VideoSeekFacts.

Module DispatchFacts.
Import Media VideoSeek.

(** [seek] keeps the video's times and configuration, and draws a frame
    [Math.floor(time / frameInterval)] below [frameCount]. *)
Lemma seek_keeps (t : Q) (cv cv' : vcanvas) (d : option Z) :
  seek t cv = (cv', d) ->
  vc cv' = vc cv /\ config cv' = config cv /\
  (forall i, d = Some i -> i = Qfloor (t / cf_frameInterval (config cv)) /\ i < cf_frameCount (config cv)).
Proof.
  unfold seek. destruct (destoryed (vc cv)).
  { intros E; injection E as <- <-. split; [reflexivity|]. split; [reflexivity|discriminate]. }
  case_bool_decide.
  { intros E; injection E as <- <-. split; [reflexivity|]. split; [reflexivity|discriminate]. }
  destruct (removed cv || (negb (loop cv) && isEnd cv) || _) eqn:Ec.
  { intros E; injection E as <- <-. split; [reflexivity|]. split; [reflexivity|discriminate]. }
  apply orb_false_iff in Ec as [_ Ec]. apply Z.leb_gt in Ec.
  destruct (loop _ && _); intros E; injection E as <- <-; simpl;
    (split; [reflexivity|]; split; [reflexivity|]; intros i Hi; injection Hi as <-; split; [reflexivity|exact Ec]).
Qed.

Lemma Qfloor_div_nonneg (a b : Q) : (0 <= a)%Q -> (0 <= b)%Q -> 0 <= Qfloor (a / b).
Proof.
  intros Ha Hb. change 0 with (Qfloor 0). apply Qfloor_resp_le.
  unfold Qdiv. apply Qmult_le_0_compat; [exact Ha|apply Qinv_le_0_compat; exact Hb].
Qed.

(** What [seek_media] adds: at most one draw, at [ct], of a frame in
    [0, frameCount). *)
Lemma seek_media_keeps (ct : Q) (evs : list (Q * mevent)) (cv cv' : vcanvas) (evs' : list (Q * mevent)) :
  (0 <= cf_frameInterval (config cv))%Q ->
  seek_media ct evs cv = (cv', evs') ->
  vc cv' = vc cv /\ config cv' = config cv /\
  exists d, evs' = evs ++ d /\
    (d = [] \/ exists i, d = [(ct, MDraw i)] /\ 0 <= i < cf_frameCount (config cv)).
Proof.
  intros Hfi. unfold seek_media.
  set (mt := (ct - vc_startTime (vc cv) - offsetTime cv)%Q).
  assert (Hmt : (0 <= (if Qle_bool mt 0 then 0 else mt))%Q).
  { destruct (Qle_bool mt 0) eqn:E; [apply Qle_refl|].
    apply Qle_bool_false_iff in E. lra. }
  destruct (seek _ cv) as [cv1 d] eqn:Es. intros E. injection E as <- <-.
  destruct (seek_keeps _ _ _ _ Es) as (H1 & H2 & H3).
  split; [exact H1|]. split; [exact H2|].
  destruct d as [i|].
  - exists [(ct, MDraw i)]. split; [reflexivity|]. right. exists i. split; [reflexivity|].
    destruct (H3 i eq_refl) as [-> Hlt]. split; [|exact Hlt].
    apply Qfloor_div_nonneg; [exact Hmt|exact Hfi].
  - exists []. split; [reflexivity|left; reflexivity].
Qed.

(** Whether an event destroys the video: [destory()] called by the
    dispatch, or by a failed [load()]. *)
Definition ends_video (e : mevent) : bool :=
  match e with MDestroy | MLoad false => true | _ => false end.

Lemma app_cons_split {A} (l1 l2 pre post : list A) (x : A) :
  l1 ++ l2 = pre ++ x :: post ->
  (exists pre2, l2 = pre2 ++ x :: post) \/
  (exists post1, l1 = pre ++ x :: post1 /\ post = post1 ++ l2).
Proof.
  revert pre. induction l1 as [|y l1 IH]; intros pre E; simpl in E.
  - left. exists pre. exact E.
  - destruct pre as [|p pre]; simpl in E; injection E as <- E.
    + right. exists l1. split; [reflexivity|symmetry; exact E].
    + destruct (IH pre E) as [H|(post1 & -> & ->)]; [left; exact H|].
      right. exists post1. split; reflexivity.
Qed.

Lemma dispatch_destroyed (ct : Q) (ok : bool) (cv : vcanvas) :
  destoryed (vc cv) = true -> dispatch ct ok cv = (cv, []).
Proof. intros H. unfold dispatch, canDestory, canPlay. rewrite H. reflexivity. Qed.

Lemma dispatch_run_destroyed (ticks : list (Q * bool)) (cv : vcanvas) :
  destoryed (vc cv) = true -> dispatch_run ticks cv = (cv, []).
Proof.
  intros H. induction ticks as [|[ct ok] ticks IH]; [reflexivity|].
  simpl. rewrite (dispatch_destroyed ct ok cv H). cbn iota beta. rewrite IH. reflexivity.
Qed.

(** One dispatch: the times and configuration are kept; the events are
    tagged with the tick; a destroying event is the only event and leaves
    the video destroyed; a draw happens inside [startTime, endTime). *)
Lemma dispatch_keeps (ct : Q) (ok : bool) (cv cv' : vcanvas) (evs : list (Q * mevent)) :
  (0 <= cf_frameInterval (config cv))%Q ->
  dispatch ct ok cv = (cv', evs) ->
  vc_startTime (vc cv') = vc_startTime (vc cv) /\ vc_endTime (vc cv') = vc_endTime (vc cv) /\
  config cv' = config cv /\
  (forall x, In x evs -> ends_video (snd x) = true -> evs = [x] /\ destoryed (vc cv') = true) /\
  (forall t i, In (t, MDraw i) evs ->
     (vc_startTime (vc cv) <= t < vc_endTime (vc cv))%Q /\ 0 <= i < cf_frameCount (config cv)).
Proof.
  intros Hfi. unfold dispatch.
  destruct (canDestory (vc cv) ct) eqn:Ed.
  { intros E. injection E as <- <-. simpl.
    split; [reflexivity|]. split; [reflexivity|]. split; [reflexivity|]. split.
    - intros x [<-|[]] _. split; reflexivity.
    - intros t i [H|[]]. discriminate. }
  destruct (canPlay (vc cv) ct) as [[|]|] eqn:Ep;
    [|intros E; injection E as <- <-; split; [reflexivity|]; split; [reflexivity|];
      split; [reflexivity|]; split; [intros x []|intros t i []]..].
  assert (Hwin : (vc_startTime (vc cv) <= ct < vc_endTime (vc cv))%Q).
  { unfold canPlay, Qltb in Ep. destruct (destoryed (vc cv)); [discriminate|].
    destruct (negb (Qle_bool (vc_startTime (vc cv)) ct)) eqn:E1; [discriminate|].
    destruct (Qle_bool (vc_endTime (vc cv)) ct) eqn:E2; [discriminate|].
    apply negb_false_iff, Qle_bool_iff in E1. apply Qle_bool_false_iff in E2. lra. }
  assert (Hseek : forall evs0 cv0 cv1 evs1,
    vc cv0 = vc cv -> config cv0 = config cv ->
    (forall x, In x evs0 -> ends_video (snd x) = false) ->
    (forall t i, ~ In (t, MDraw i) evs0) ->
    seek_media ct evs0 cv0 = (cv1, evs1) ->
    vc_startTime (vc cv1) = vc_startTime (vc cv) /\ vc_endTime (vc cv1) = vc_endTime (vc cv) /\
    config cv1 = config cv /\
    (forall x, In x evs1 -> ends_video (snd x) = true -> evs1 = [x] /\ destoryed (vc cv1) = true) /\
    (forall t i, In (t, MDraw i) evs1 ->
       (vc_startTime (vc cv) <= t < vc_endTime (vc cv))%Q /\ 0 <= i < cf_frameCount (config cv))).
  { intros evs0 cv0 cv1 evs1 Hv Hc Hnd Hnm Es.
    rewrite <- Hc in Hfi.
    destruct (seek_media_keeps ct evs0 cv0 cv1 evs1 Hfi Es) as (H1 & H2 & d & -> & Hd).
    rewrite H1, Hv, H2, Hc. rewrite Hc in Hd.
    split; [reflexivity|]. split; [reflexivity|]. split; [reflexivity|]. split.
    - intros x Hx Hend. apply in_app_or in Hx as [Hx|Hx].
      + rewrite (Hnd x Hx) in Hend. discriminate.
      + destruct Hd as [->|(i & -> & _)]; [destruct Hx|].
        destruct Hx as [<-|[]]. discriminate.
    - intros t i Hx. apply in_app_or in Hx as [Hx|Hx]; [destruct (Hnm t i Hx)|].
      destruct Hd as [->|(j & -> & Hj)]; [destruct Hx|].
      destruct Hx as [Hx|[]]. injection Hx as <- <-. split; [exact Hwin|exact Hj]. }
  destruct (ready cv).
  { apply Hseek; try reflexivity; [intros x []|intros t i []]. }
  destruct ok.
  { apply Hseek; try reflexivity.
    - intros x [<-|[]]. reflexivity.
    - intros t i [H|[]]. discriminate. }
  intros E. injection E as <- <-. simpl.
  split; [reflexivity|]. split; [reflexivity|]. split; [reflexivity|]. split.
  - intros x [<-|[]] _. split; reflexivity.
  - intros t i [H|[]]. discriminate.
Qed.

(** The media dispatch of a video over successive ticks: once [destory()]
    has run (by the dispatch when [endTime] is reached, or by a failed
    [load()]), nothing more happens to the video, so it is destroyed and
    its load fails at most once; every frame drawn is drawn at a tick
    inside [startTime, endTime) and is an index in [0, frameCount). *)
Theorem dispatch_run_lifecycle (ticks : list (Q * bool)) (cv cv' : vcanvas) (evs : list (Q * mevent)) :
  (0 <= cf_frameInterval (config cv))%Q ->
  dispatch_run ticks cv = (cv', evs) ->
  (forall pre x post, evs = pre ++ x :: post -> ends_video (snd x) = true -> post = []) /\
  (forall t i, In (t, MDraw i) evs ->
     (vc_startTime (vc cv) <= t < vc_endTime (vc cv))%Q /\ 0 <= i < cf_frameCount (config cv)).
Proof.
  revert cv cv' evs. induction ticks as [|[ct ok] ticks IH]; intros cv cv' evs Hfi.
  { simpl. intros E. injection E as _ <-. split; [intros [|] ? ? ?; discriminate|intros t i []]. }
  simpl. destruct (dispatch ct ok cv) as [cv1 evs1] eqn:E1.
  destruct (dispatch_run ticks cv1) as [cv2 evs2] eqn:E2.
  intros E. injection E as <- <-.
  destruct (dispatch_keeps ct ok cv cv1 evs1 Hfi E1) as (Hs & He & Hc & Hend & Hdraw).
  rewrite <- Hc in Hfi.
  destruct (IH cv1 cv2 evs2 Hfi E2) as [IH1 IH2].
  rewrite Hs, He, Hc in IH2.
  split.
  - intros pre x post Hev Hx.
    destruct (app_cons_split evs1 evs2 pre post x Hev) as [(pre2 & Hev2)|(post1 & Hev1 & ->)].
    + exact (IH1 pre2 x post Hev2 Hx).
    + assert (Hin : In x evs1) by (rewrite Hev1; apply in_or_app; right; left; reflexivity).
      destruct (Hend x Hin Hx) as [Hone Hdest].
      rewrite (dispatch_run_destroyed ticks cv1 Hdest) in E2. injection E2 as _ <-.
      rewrite Hone in Hev1. destruct pre as [|p pre]; simpl in Hev1.
      * injection Hev1 as <-. reflexivity.
      * injection Hev1 as _ Hev1. destruct pre; discriminate.
  - intros t i Hx. apply in_app_or in Hx as [Hx|Hx]; [exact (Hdraw t i Hx)|exact (IH2 t i Hx)].
Qed.

Definition dsample (destroyed : bool) : vcanvas :=
  mkCanvas (mkVideoCanvas 100 300 destroyed) false false false None 0 0 (mkVConfig 40 10 400).

Definition dsample_events : list (Q * mevent) :=
  [(100%Q, MLoad true); (100%Q, MDraw 0); (140%Q, MDraw 1); (200%Q, MDraw 2); (300%Q, MDestroy)].

Lemma dispatch_run_lifecycle_witness :
  (0 <= cf_frameInterval (config (dsample false)))%Q /\
  dispatch_run [(50, true); (100, true); (140, true); (200, true); (300, true); (340, true)]%Q
    (dsample false) = (dsample true, dsample_events) /\
  ((forall pre x post, dsample_events = pre ++ x :: post -> ends_video (snd x) = true -> post = []) /\
   (forall t i, In (t, MDraw i) dsample_events ->
      (100 <= t < 300)%Q /\ 0 <= i < 10)).
Proof.
  assert (H0 : (0 <= cf_frameInterval (config (dsample false)))%Q) by (vm_compute; discriminate).
  assert (E : dispatch_run [(50, true); (100, true); (140, true); (200, true); (300, true); (340, true)]%Q
    (dsample false) = (dsample true, dsample_events)) by (vm_compute; reflexivity).
  split; [exact H0|]. split; [exact E|].
  exact (dispatch_run_lifecycle _ (dsample false) _ _ H0 E).
Defined.

End DispatchFacts.

Module UtilTimeFacts.
Import UtilTime.

Lemma parseInt_time_Z (m : Z) : 0 <= m -> Page.parseInt_time (inject_Z m) = m.
Proof.
  intros Hm. unfold Page.parseInt_time.
  rewrite (proj2 (Qle_bool_iff _ _)) by (unfold Qle; simpl; lia).
  apply Qfloor_Z.
Qed.

(** [util.millisecondsToHmss] on a whole, non-negative number of
    milliseconds [m] below 10^15 (about 31700 years): the hours, minutes and seconds are the fields of [m]
    padded to two digits, and the part after the dot is [m mod 1000]
    written without padding, so 1005 ms gives "00:00:01.5", which reads
    as 1.5 seconds. *)
Theorem millisecondsToHmss_fields (m : Z) :
  0 <= m < 10 ^ 15 ->
  millisecondsToHmss (inject_Z m) =
    String.append (pad2 (m / 3600000)) (String.append ":"
      (String.append (pad2 ((m / 60000) mod 60)) (String.append ":"
        (String.append (pad2 ((m / 1000) mod 60)) (String.append "." (pretty (m mod 1000))))))).
Proof.
  intros [Hm _]. unfold millisecondsToHmss. rewrite (parseInt_time_Z m Hm). cbv zeta.
  pose proof (Z.div_mod m 1000 ltac:(lia)) as Em. pose proof (Z.mod_pos_bound m 1000 ltac:(lia)) as Br.
  set (sec := m / 1000) in *. set (r := m mod 1000) in *.
  pose proof (Z.div_mod sec 3600 ltac:(lia)) as Es. pose proof (Z.mod_pos_bound sec 3600 ltac:(lia)) as Bs.
  set (h := sec / 3600) in *. set (s1 := sec mod 3600) in *.
  assert (Hs1 : sec - h * 3600 = s1) by lia. rewrite Hs1.
  pose proof (Z.div_mod s1 60 ltac:(lia)) as E1. pose proof (Z.mod_pos_bound s1 60 ltac:(lia)) as B1.
  set (mi := s1 / 60) in *. set (s2 := s1 mod 60) in *.
  assert (Hs2 : s1 - mi * 60 = s2) by lia. rewrite Hs2.
  assert (Hh : h = m / 3600000) by (apply (Z.div_unique_pos m 3600000 h (60000 * mi + 1000 * s2 + r)); lia).
  assert (Hq : m / 60000 = 60 * h + mi) by (symmetry; apply (Z.div_unique_pos m 60000 _ (1000 * s2 + r)); lia).
  assert (Hmi : (m / 60000) mod 60 = mi) by (rewrite Hq; symmetry; apply (Z.mod_unique_pos _ 60 h); lia).
  assert (Hsec : sec mod 60 = s2) by (symmetry; apply (Z.mod_unique_pos _ 60 (60 * h + mi)); lia).
  assert (Hms : Z.rem m 60000 - s2 * 1000 = r).
  { rewrite Z.rem_mod_nonneg by lia.
    assert (m mod 60000 = 1000 * s2 + r) by (symmetry; apply (Z.mod_unique_pos _ 60000 (60 * h + mi)); lia).
    lia. }
  rewrite Hms, <- Hh, Hmi, Hsec. reflexivity.
Qed.

Lemma millisecondsToHmss_fields_witness :
  0 <= 3723005 < 10 ^ 15 /\
  millisecondsToHmss (inject_Z 3723005) = "01:02:03.5"%string.
Proof.
  split; [lia|]. rewrite (millisecondsToHmss_fields 3723005 ltac:(lia)). vm_compute. reflexivity.
Defined.

End UtilTimeFacts.

Module SynthFormatFacts.
Import JsNumber Synth SynthFormat.

Lemma constructor_checks_format (isVideoChunk : bool) (o : options) (g : string) :
  constructor_checks isVideoChunk o = Ok tt -> so_format o = Some g -> g ∈ SUPPORT_FORMAT.
Proof.
  intros H Hg. unfold constructor_checks in H. rewrite Hg in H.
  repeat match type of H with
  | (if ?b then _ else _) = _ => destruct b eqn:?; [discriminate|]
  end.
  match goal with Hb : negb (bool_decide (g ∈ SUPPORT_FORMAT)) = false |- _ =>
    apply negb_false_iff, bool_decide_eq_true in Hb; exact Hb end.
Qed.

(** The [Synthesizer] constructor, when it returns: [this.format] is one
    of [SUPPORT_FORMAT] and [this.fps] is [options.fps], or 30 when it is
    undefined; an explicit [options.format] is kept whatever the output
    path; without it, the format is the output path's extension, except
    for a [VideoChunk] (or a missing or empty output path), which gets
    "mp4". *)
Theorem constructor_format_ok (extname : string -> string) (other_checks : result unit)
    (isVideoChunk : bool) (o : options) (f : string) (fps : float) :
  constructor_format extname other_checks isVideoChunk o = Ok (f, fps) ->
  fps = default 30%float (so_fps o) /\ f ∈ SUPPORT_FORMAT /\
  f = match so_format o with
      | Some g => g
      | None =>
          match so_outputPath o with
          | Some p => if String.eqb p "" || isVideoChunk then "mp4" else extname p
          | None => "mp4"
          end
      end.
Proof.
  unfold constructor_format.
  destruct (constructor_checks isVideoChunk o) as [[]|m] eqn:Ec; [|discriminate].
  destruct other_checks as [[]|m]; [|discriminate].
  destruct (so_format o) as [g|] eqn:Ef.
  - pose proof (constructor_checks_format isVideoChunk o g Ec Ef) as Hg.
    assert (Hne : String.eqb g "" = false).
    { apply String.eqb_neq. intros ->. unfold SUPPORT_FORMAT in Hg.
      apply list_elem_of_In in Hg. simpl in Hg. destruct Hg as [Hg|[Hg|[]]]; discriminate Hg. }
    simpl. rewrite Hne. simpl. intros E. injection E as <- <-.
    split; [reflexivity|]. split; [exact Hg|reflexivity].
  - simpl. destruct (so_outputPath o) as [p|]; simpl.
    + destruct (String.eqb p "") eqn:Ep; simpl.
      * intros E. injection E as <- <-. split; [reflexivity|]. split; [|reflexivity].
        apply list_elem_of_In. left. reflexivity.
      * destruct isVideoChunk; simpl.
        -- intros E. injection E as <- <-. split; [reflexivity|]. split; [|reflexivity].
           apply list_elem_of_In. left. reflexivity.
        -- destruct (String.eqb (extname p) ""); [discriminate|].
           destruct (bool_decide (extname p ∈ SUPPORT_FORMAT)) eqn:Eb; simpl; [|discriminate].
           intros E. injection E as <- <-. apply bool_decide_eq_true in Eb.
           split; [reflexivity|]. split; [exact Eb|reflexivity].
    + intros E. injection E as <- <-. split; [reflexivity|]. split; [|reflexivity].
      apply list_elem_of_In. left. reflexivity.
Qed.

Definition sample_options (fmt : option string) (path : option string) : options :=
  mkSynthOptions 1280%float 720%float 10000%float path (Some 60%float) fmt.

Definition sample_extname (p : string) : string :=
  if String.eqb p "out.webm" then "webm" else if String.eqb p "out.mov" then "mov" else "".

Lemma constructor_format_ok_witness :
  constructor_format sample_extname (Ok tt) false (sample_options None (Some "out.webm")) =
    Ok ("webm"%string, 60%float) /\
  (60%float = default 30%float (so_fps (sample_options None (Some "out.webm"))) /\
   "webm"%string ∈ SUPPORT_FORMAT /\ "webm"%string = sample_extname "out.webm").
Proof.
  assert (E : constructor_format sample_extname (Ok tt) false (sample_options None (Some "out.webm")) =
    Ok ("webm"%string, 60%float)) by (vm_compute; reflexivity).
  split; [exact E|]. exact (constructor_format_ok _ _ _ _ _ _ E).
Defined.

(** Without [options.format], a [Synthesizer] (not a [VideoChunk]) whose
    non-empty output path has an extension outside [SUPPORT_FORMAT]
    ("mov", or none at all) is refused: the constructor throws. *)
Theorem constructor_format_bad_extension (extname : string -> string) (other_checks : result unit)
    (o : options) (p : string) :
  so_format o = None -> so_outputPath o = Some p -> p <> ""%string ->
  ~ extname p ∈ SUPPORT_FORMAT ->
  exists m, constructor_format extname other_checks false o = Throw m.
Proof.
  intros Hf Hp Hne Hext. unfold constructor_format.
  destruct (constructor_checks false o) as [[]|m]; [|exists m; reflexivity].
  destruct other_checks as [[]|m]; [|exists m; reflexivity].
  rewrite Hf, Hp. simpl.
  rewrite (proj2 (String.eqb_neq p "") Hne). simpl.
  destruct (String.eqb (extname p) ""); [eexists; reflexivity|].
  rewrite bool_decide_false by exact Hext. eexists; reflexivity.
Qed.

Lemma constructor_format_bad_extension_witness :
  so_format (sample_options None (Some "out.mov")) = None /\
  so_outputPath (sample_options None (Some "out.mov")) = Some "out.mov"%string /\
  "out.mov"%string <> ""%string /\ ~ sample_extname "out.mov" ∈ SUPPORT_FORMAT /\
  exists m, constructor_format sample_extname (Ok tt) false (sample_options None (Some "out.mov")) = Throw m.
Proof.
  assert (Hne : "out.mov"%string <> ""%string) by discriminate.
  assert (Hext : ~ sample_extname "out.mov" ∈ SUPPORT_FORMAT).
  { intros H. apply list_elem_of_In in H. vm_compute in H. intuition discriminate. }
  split; [reflexivity|]. split; [reflexivity|]. split; [exact Hne|]. split; [exact Hext|].
  exact (constructor_format_bad_extension _ _ (sample_options None (Some "out.mov")) "out.mov"
           eq_refl eq_refl Hne Hext).
Defined.

End SynthFormatFacts.

Module CssFacts.
Import Media CssAnimations.

(** An animation not seen before ([startTime == null]). *)
Definition is_new (a : animation) : bool :=
  match an_startTime a with None => true | Some _ => false end.

(** An animation whose end [duration * (iterations || Infinity) + delay]
    is never reached. *)
Definition endless (a : animation) : Prop := forall x, ge x (threshold a) = false.

Lemma endless_falsy_iterations (a : animation) :
  (an_iterations a = None \/ exists q, an_iterations a = Some q /\ (q == 0)%Q) ->
  (0 <= an_duration a)%Q -> endless a.
Proof.
  intros Hit Hd x. unfold threshold.
  assert (Hn : match an_iterations a with
               | Some q => if Qeq_bool q 0 then None else Some q
               | None => None end = None).
  { destruct Hit as [->|(q & -> & Hq)]; [reflexivity|].
    rewrite (proj2 (Qeq_bool_iff q 0) Hq). reflexivity. }
  rewrite Hn. unfold Qltb.
  destruct (Qle_bool (an_duration a) 0) eqn:E1; simpl; [|reflexivity].
  destruct (Qle_bool 0 (an_duration a)) eqn:E2; simpl; [reflexivity|].
  apply Qle_bool_false_iff in E2. lra.
Qed.

Lemma filter_is_new_anchored (t0 : Q) (l : list animation) :
  (forall a, In a l -> an_startTime a = Some t0) -> List.filter is_new l = [].
Proof.
  induction l as [|a l IH]; intros H; [reflexivity|]. simpl.
  unfold is_new at 1. rewrite (H a (or_introl eq_refl)).
  apply IH. intros b Hb. exact (H b (or_intror Hb)).
Qed.

Lemma filter_is_new_all (l : list animation) :
  (forall a, In a l -> an_startTime a = None) -> List.filter is_new l = l.
Proof.
  induction l as [|a l IH]; intros H; [reflexivity|]. simpl.
  unfold is_new at 1. rewrite (H a (or_introl eq_refl)).
  f_equal. apply IH. intros b Hb. exact (H b (or_intror Hb)).
Qed.

Lemma seekCSSAnimations_filter (ct : Q) (l : list animation) :
  seekCSSAnimations ct l = css_filter ct l.
Proof. destruct l; reflexivity. Qed.

Lemma css_filter_props (ct : Q) (l kept : list animation) (ps : list nat) (ss : list (nat * Z)) :
  css_filter ct l = (kept, ps, ss) ->
  ps = map an_id (List.filter is_new l) /\
  (forall a', In a' kept -> exists a, In a l /\ an_id a' = an_id a /\ threshold a' = threshold a /\
                              an_startTime a' = Some (default ct (an_startTime a))) /\
  (forall id x, In (id, x) ss -> exists a, In a l /\ an_id a = id /\
                  x = Qfloor (ct - default ct (an_startTime a)) /\ 0 <= x) /\
  (forall a, In a l -> endless a -> exists a', In a' kept /\ an_id a' = an_id a /\
                threshold a' = threshold a /\ an_startTime a' = Some (default ct (an_startTime a))).
Proof.
  revert kept ps ss. induction l as [|a l IH]; intros kept ps ss E.
  { simpl in E. injection E as <- <- <-. split; [reflexivity|].
    split; [intros _ []|]. split; [intros _ _ []|intros _ []]. }
  simpl in E. destruct (css_filter ct l) as [[kept1 ps1] ss1] eqn:E1.
  destruct (IH kept1 ps1 ss1 eq_refl) as (H1 & H2 & H3 & H4).
  set (a' := mkAnimation (an_id a) (Some (default ct (an_startTime a))) (an_duration a)
                         (an_iterations a) (an_delay a)).
  assert (Hth : threshold a' = threshold a) by reflexivity.
  assert (Hp : (match an_startTime a with None => [an_id a] | Some _ => [] end) ++
                 map an_id (List.filter is_new l) = map an_id (List.filter is_new (a :: l))).
  { simpl. unfold is_new at 2. destruct (an_startTime a); reflexivity. }
  unfold visit in E. fold a' in E.
  destruct (Qfloor (ct - default ct (an_startTime a)) <? 0) eqn:Eneg.
  - injection E as <- <- <-.
    split; [rewrite H1; exact Hp|]. split; [|split].
    + intros b [<-|Hb]; [exists a; split; [left; reflexivity|]; split; [reflexivity|];
                         split; [exact Hth|reflexivity]|].
      destruct (H2 b Hb) as (c & Hc & Hc'). exists c. split; [right; exact Hc|exact Hc'].
    + intros id x Hx. destruct (H3 id x Hx) as (c & Hc & Hc'). exists c. split; [right; exact Hc|exact Hc'].
    + intros b [<-|Hb] Hend.
      * exists a'. split; [left; reflexivity|]. split; [reflexivity|]. split; [exact Hth|reflexivity].
      * destruct (H4 b Hb Hend) as (c & Hc & Hc'). exists c. split; [right; exact Hc|exact Hc'].
  - apply Z.ltb_ge in Eneg.
    destruct (negb (ge (Qfloor (ct - default ct (an_startTime a))) (threshold a'))) eqn:Ek;
      injection E as <- <- <-.
    + split; [rewrite H1; exact Hp|]. split; [|split].
      * intros b [<-|Hb]; [exists a; split; [left; reflexivity|]; split; [reflexivity|];
                           split; [exact Hth|reflexivity]|].
        destruct (H2 b Hb) as (c & Hc & Hc'). exists c. split; [right; exact Hc|exact Hc'].
      * intros id x [Hx|Hx].
        -- injection Hx as <- <-. exists a. split; [left; reflexivity|]. split; [reflexivity|].
           split; [reflexivity|exact Eneg].
        -- destruct (H3 id x Hx) as (c & Hc & Hc'). exists c. split; [right; exact Hc|exact Hc'].
      * intros b [<-|Hb] Hend.
        -- exists a'. split; [left; reflexivity|]. split; [reflexivity|]. split; [exact Hth|reflexivity].
        -- destruct (H4 b Hb Hend) as (c & Hc & Hc'). exists c. split; [right; exact Hc|exact Hc'].
    + split; [rewrite H1; exact Hp|]. split; [|split].
      * intros b Hb. destruct (H2 b Hb) as (c & Hc & Hc'). exists c. split; [right; exact Hc|exact Hc'].
      * intros id x [Hx|Hx].
        -- injection Hx as <- <-. exists a. split; [left; reflexivity|]. split; [reflexivity|].
           split; [reflexivity|exact Eneg].
        -- destruct (H3 id x Hx) as (c & Hc & Hc'). exists c. split; [right; exact Hc|exact Hc'].
      * intros b [<-|Hb] Hend.
        -- rewrite Hth, Hend in Ek. discriminate.
        -- exact (H4 b Hb Hend).
Qed.

(** The calls after the first: every animation is anchored at [t0]. *)
Lemma css_calls_anchored (t0 : Q) (ts : list Q) (l l' : list animation)
    (outs : list (list nat * list (nat * Z))) :
  (forall a, In a l -> an_startTime a = Some t0) ->
  css_calls ts l = (l', outs) ->
  Forall (fun o => fst o = []) outs /\
  Forall2 (fun t o => forall id x, In (id, x) (snd o) ->
             (exists a, In a l /\ an_id a = id) /\ x = Qfloor (t - t0) /\ 0 <= x) ts outs /\
  (forall a, In a l -> endless a -> exists a', In a' l' /\ an_id a' = an_id a).
Proof.
  revert l l' outs. induction ts as [|t ts IH]; intros l l' outs Hanc E.
  { simpl in E. injection E as <- <-. split; [constructor|]. split; [constructor|].
    intros a Ha _. exists a. split; [exact Ha|reflexivity]. }
  simpl in E. rewrite seekCSSAnimations_filter in E.
  destruct (css_filter t l) as [[l1 p] s] eqn:E1.
  destruct (css_calls ts l1) as [l2 outs2] eqn:E2. injection E as <- <-.
  destruct (css_filter_props t l l1 p s E1) as (H1 & H2 & H3 & H4).
  assert (Hanc1 : forall a, In a l1 -> an_startTime a = Some t0).
  { intros a Ha. destruct (H2 a Ha) as (b & Hb & _ & _ & ->). rewrite (Hanc b Hb). reflexivity. }
  destruct (IH l1 l2 outs2 Hanc1 E2) as (I1 & I2 & I3).
  split; [|split].
  - constructor; [|exact I1]. simpl. rewrite H1.
    rewrite (filter_is_new_anchored t0 l Hanc). reflexivity.
  - constructor.
    + intros id x Hx. destruct (H3 id x Hx) as (b & Hb & Hid & -> & Hx0).
      rewrite (Hanc b Hb) in Hx0 |- *. simpl in Hx0 |- *.
      split; [exists b; split; [exact Hb|exact Hid]|]. split; [reflexivity|exact Hx0].
    + eapply Forall2_impl; [exact I2|]. intros t' o Ho id x Hx.
      destruct (Ho id x Hx) as ((b & Hb & Hid) & Hrest). split; [|exact Hrest].
      destruct (H2 b Hb) as (c & Hc & Hcid & _). exists c. split; [exact Hc|congruence].
  - intros a Ha Hend. destruct (H4 a Ha Hend) as (a1 & Ha1 & Hid1 & Hth1 & _).
    assert (Hend1 : endless a1) by (unfold endless; rewrite Hth1; exact Hend).
    destruct (I3 a1 Ha1 Hend1) as (a2 & Ha2 & Hid2). exists a2. split; [exact Ha2|congruence].
Qed.

(** [#seekCSSAnimations] over successive ticks, the first at [t0], on
    animations that have just been reported ([startTime: null]): the ids
    sent to [Animation.setPaused] over all the calls are exactly the
    animations' ids, all at the first call, so each animation is paused
    once; every seek sent at a call at time [t] is for one of these
    animations and seeks it to [Math.floor(t - t0)], which is never
    negative; an animation whose [iterations] is falsy (infinite) and
    whose duration is not negative is never removed from the list. *)
Theorem seekCSSAnimations_lifecycle (t0 : Q) (ts : list Q) (l l' : list animation)
    (outs : list (list nat * list (nat * Z))) :
  (forall a, In a l -> an_startTime a = None) ->
  css_calls (t0 :: ts) l = (l', outs) ->
  concat (map fst outs) = map an_id l /\
  Forall2 (fun t o => forall id x, In (id, x) (snd o) ->
             (exists a, In a l /\ an_id a = id) /\ x = Qfloor (t - t0) /\ 0 <= x) (t0 :: ts) outs /\
  (forall a, In a l ->
     (an_iterations a = None \/ exists q, an_iterations a = Some q /\ (q == 0)%Q) ->
     (0 <= an_duration a)%Q ->
     exists a', In a' l' /\ an_id a' = an_id a).
Proof.
  intros Hnew E. simpl in E. rewrite seekCSSAnimations_filter in E.
  destruct (css_filter t0 l) as [[l1 p] s] eqn:E1.
  destruct (css_calls ts l1) as [l2 outs2] eqn:E2. injection E as <- <-.
  destruct (css_filter_props t0 l l1 p s E1) as (H1 & H2 & H3 & H4).
  assert (Hanc1 : forall a, In a l1 -> an_startTime a = Some t0).
  { intros a Ha. destruct (H2 a Ha) as (b & Hb & _ & _ & ->). rewrite (Hnew b Hb). reflexivity. }
  destruct (css_calls_anchored t0 ts l1 l2 outs2 Hanc1 E2) as (I1 & I2 & I3).
  split; [|split].
  - simpl. rewrite H1, (filter_is_new_all l Hnew).
    assert (Hz : concat (map fst outs2) = []).
    { clear -I1. induction I1 as [|o os Ho _ IH]; [reflexivity|]. simpl. rewrite Ho, IH. reflexivity. }
    rewrite Hz, app_nil_r. reflexivity.
  - constructor.
    + intros id x Hx. destruct (H3 id x Hx) as (b & Hb & Hid & -> & Hx0).
      rewrite (Hnew b Hb) in Hx0 |- *. simpl in Hx0 |- *.
      split; [exists b; split; [exact Hb|exact Hid]|]. split; [reflexivity|exact Hx0].
    + eapply Forall2_impl; [exact I2|]. intros t' o Ho id x Hx.
      destruct (Ho id x Hx) as ((b & Hb & Hid) & Hrest). split; [|exact Hrest].
      destruct (H2 b Hb) as (c & Hc & Hcid & _). exists c. split; [exact Hc|congruence].
  - intros a Ha Hit Hd. pose proof (endless_falsy_iterations a Hit Hd) as Hend.
    destruct (H4 a Ha Hend) as (a1 & Ha1 & Hid1 & Hth1 & _).
    assert (Hend1 : endless a1) by (unfold endless; rewrite Hth1; exact Hend).
    destruct (I3 a1 Ha1 Hend1) as (a2 & Ha2 & Hid2). exists a2. split; [exact Ha2|congruence].
Qed.

Definition css_sample : list animation :=
  [mkAnimation 1 None 100 (Some 1%Q) 0; mkAnimation 2 None 50 None 0].

Lemma seekCSSAnimations_lifecycle_witness :
  (forall a, In a css_sample -> an_startTime a = None) /\
  css_calls [10; 60; 130; 200]%Q css_sample =
    ([mkAnimation 2 (Some 10%Q) 50 None 0],
     [([1; 2]%nat, [(1%nat, 0); (2%nat, 0)]); ([], [(1%nat, 50); (2%nat, 50)]);
      ([], [(1%nat, 120); (2%nat, 120)]); ([], [(2%nat, 190)])]) /\
  concat (map fst [([1; 2]%nat, [(1%nat, 0); (2%nat, 0)]); ([], [(1%nat, 50); (2%nat, 50)]);
                   ([], [(1%nat, 120); (2%nat, 120)]); ([], [(2%nat, 190)])]) = map an_id css_sample.
Proof.
  assert (Hn : forall a, In a css_sample -> an_startTime a = None).
  { intros a [<-|[<-|[]]]; reflexivity. }
  assert (E : css_calls [10; 60; 130; 200]%Q css_sample =
    ([mkAnimation 2 (Some 10%Q) 50 None 0],
     [([1; 2]%nat, [(1%nat, 0); (2%nat, 0)]); ([], [(1%nat, 50); (2%nat, 50)]);
      ([], [(1%nat, 120); (2%nat, 120)]); ([], [(2%nat, 190)])])) by (vm_compute; reflexivity).
  split; [exact Hn|]. split; [exact E|].
  exact (proj1 (seekCSSAnimations_lifecycle 10 [60; 130; 200]%Q css_sample _ _ Hn E)).
Defined.

End CssFacts.

Module PayloadErrors.
Import Payload PayloadFacts.

(** [_unpackData] on bytes without a [!]: the header delimiter is not
    found, whatever follows. *)
Theorem unpackData_no_delimiter (JSON_parse : list byte -> option json) (buf : list byte) :
  (forall b, In b buf -> b <> x21) ->
  unpackData JSON_parse buf = Throw "Invalid data format: header delimiter not found".
Proof.
  intros H. unfold unpackData.
  assert (E : list_find (fun b => Byte.eqb b x21 = true) buf = None).
  { apply list_find_None. apply List.Forall_forall. intros b Hb Heq.
    apply Byte.byte_dec_bl in Heq. exact (H b Hb Heq). }
  rewrite E. reflexivity.
Qed.

Lemma unpackData_no_delimiter_witness :
  (forall b, In b [x31; x32; x7b] -> b <> x21) /\
  unpackData (fun _ => None) [x31; x32; x7b] = Throw "Invalid data format: header delimiter not found".
Proof.
  assert (H : forall b, In b [x31; x32; x7b] -> b <> x21).
  { intros b [<-|[<-|[<-|[]]]]; discriminate. }
  split; [exact H|]. exact (unpackData_no_delimiter _ _ H).
Defined.

(** [_unpackData] on a header [n!] written as [#packData] writes it: a
    length of 0, or one larger than the bytes after the [!], is refused
    before anything is parsed. *)
Theorem unpackData_bad_length (JSON_parse : list byte -> option json) (n : N) (rest : list byte) :
  (n = 0%N \/ Z.of_nat (length rest) < Z.of_N n) ->
  unpackData JSON_parse (dec_bytes n ++ x21 :: rest) = Throw "Invalid data format: Invalid data length".
Proof.
  intros Hn. unfold unpackData. unfold dec_bytes at 1.
  rewrite list_find_delimiter. fold (dec_bytes n).
  rewrite (take_app_length' (dec_bytes n) (x21 :: rest)) by reflexivity.
  rewrite parseInt_dec_bytes.
  match goal with |- context [if ?b then _ else _] => replace b with true end; [reflexivity|].
  symmetry. rewrite length_app. simpl.
  destruct Hn as [->|Hn]; [reflexivity|].
  apply orb_true_iff. right. apply Z.gtb_lt. unfold dec_bytes in *. lia.
Qed.

Lemma unpackData_bad_length_witness :
  (5%N = 0%N \/ Z.of_nat (length [x7b; x7d]) < Z.of_N 5) /\
  unpackData (fun _ => None) (dec_bytes 5 ++ x21 :: [x7b; x7d]) = Throw "Invalid data format: Invalid data length".
Proof.
  assert (H : 5%N = 0%N \/ Z.of_nat (length [x7b; x7d]) < Z.of_N 5) by (right; simpl; lia).
  split; [exact H|]. exact (unpackData_bad_length _ 5 [x7b; x7d] H).
Defined.

End PayloadErrors.

Module ChunkInput.
Import Chunks.

(** The chunk dimensions match those of the synthesizer. *)
Definition dims_match (s : csynth) (c : chunk) : Prop :=
  (c_width c == s_width s)%Q /\ (c_height c == s_height s)%Q /\ (c_fps c == s_fps s)%Q.

Lemma dims_match_resp (s1 s2 : csynth) (c : chunk) :
  (s_width s1 == s_width s2)%Q -> (s_height s1 == s_height s2)%Q -> (s_fps s1 == s_fps s2)%Q ->
  dims_match s1 c <-> dims_match s2 c.
Proof.
  intros Hw Hh Hf. unfold dims_match. rewrite Hw, Hh, Hf. reflexivity.
Qed.

Lemma with_transition_dims (c : chunk) (t : option (string * option Q)) :
  c_width (with_transition c t) = c_width c /\ c_height (with_transition c t) = c_height c /\
  c_fps (with_transition c t) = c_fps c.
Proof. destruct t as [[id d]|]; repeat split. Qed.

(** [ChunkSynthesizer.input] over a list of chunks succeeds exactly when
    every chunk has the width, height and fps the synthesizer started with
    (compared with [==]) and every transition given has an id of
    [TRANSITION_IDS]; since each input copies the chunk's values, these
    stay those of the start, and the first chunk that fails a check makes
    the input throw. *)
Theorem input_all_ok_iff (s0 : csynth) (l : list (chunk * option (string * option Q))) :
  (exists s, input_all s0 l = Ok s) <->
  Forall (fun ct => dims_match s0 (fst ct) /\ transition_check (snd ct) = Ok tt) l.
Proof.
  revert s0. induction l as [|[c t] l IH]; intros s0; simpl.
  { split; [intros _; constructor|intros _; eexists; reflexivity]. }
  unfold input.
  destruct (Qeq_bool (c_width c) (s_width s0)) eqn:Ew;
  [destruct (Qeq_bool (c_height c) (s_height s0)) eqn:Eh;
   [destruct (Qeq_bool (c_fps c) (s_fps s0)) eqn:Ef|]|]; simpl.
  - apply Qeq_bool_eq in Ew, Eh, Ef.
    destruct (transition_check t) as [[]|m] eqn:Et.
    + destruct (with_transition_dims c t) as (Hw & Hh & Hf).
      rewrite IH. simpl. rewrite Hw, Hh, Hf.
      assert (Hr : forall ct, dims_match (mkCsynth (c_width c) (c_height c) (c_fps c)
               (s_duration s0 + getOutputDuration (with_transition c t)) (s_chunks s0 ++ [with_transition c t])) ct
               <-> dims_match s0 ct)
        by (intros ct; apply dims_match_resp; [exact Ew|exact Eh|exact Ef]).
      split.
      * intros HF. constructor; [split; [split; [exact Ew|split; [exact Eh|exact Ef]]|exact Et]|].
        eapply List.Forall_impl; [|exact HF]. intros [c' t'] [Hd Ht]. simpl in *.
        split; [apply Hr; exact Hd|exact Ht].
      * intros HF. inversion HF as [|? ? _ HF']; subst.
        eapply List.Forall_impl; [|exact HF']. intros [c' t'] [Hd Ht]. simpl in *.
        split; [apply Hr; exact Hd|exact Ht].
    + split; [intros [s Hs]; discriminate|]. intros HF.
      inversion HF as [|? ? (_ & Ht) _]; subst. simpl in Ht. congruence.
  - split; [intros [s Hs]; discriminate|]. intros HF. inversion HF as [|? ? ((_ & _ & Hd) & _) _]; subst.
    apply Qeq_bool_iff in Hd. simpl in Hd. congruence.
  - split; [intros [s Hs]; discriminate|]. intros HF. inversion HF as [|? ? ((_ & Hd & _) & _) _]; subst.
    apply Qeq_bool_iff in Hd. simpl in Hd. congruence.
  - split; [intros [s Hs]; discriminate|]. intros HF. inversion HF as [|? ? ((Hd & _ & _) & _) _]; subst.
    apply Qeq_bool_iff in Hd. simpl in Hd. congruence.
Qed.

(** Two matching chunks, the first with the transition "fade", are
    accepted; the same chunks with the transition "nosuch" are not. *)
Lemma input_all_ok_iff_witness :
  (exists s, input_all (mkCsynth 1280 720 30 0 [])
     [(mkChunk 1280 720 30 5000 None 0 false [], Some ("fade"%string, @None Q));
      (mkChunk 1280 720 30 3000 None 0 false [], None)] = Ok s) /\
  ~ (exists s, input_all (mkCsynth 1280 720 30 0 [])
       [(mkChunk 1280 720 30 5000 None 0 false [], Some ("nosuch"%string, @None Q));
        (mkChunk 1280 720 30 3000 None 0 false [], None)] = Ok s).
Proof.
  split.
  - apply (proj2 (input_all_ok_iff (mkCsynth 1280 720 30 0 [])
      [(mkChunk 1280 720 30 5000 None 0 false [], Some ("fade"%string, @None Q));
       (mkChunk 1280 720 30 3000 None 0 false [], None)])).
    repeat constructor.
  - intros H. apply (input_all_ok_iff (mkCsynth 1280 720 30 0 [])) in H.
    inversion H as [|? ? (_ & Ht) _]. vm_compute in Ht. discriminate.
Defined.

End ChunkInput.
